(** * Canvas overview renderer: coordinate transforms, group resolution, framing

    A shallow embedding of the class [CanvasOverviewRenderer] (the overview
    panel of the memory-palace presentation views) together with the
    properties of its bounds, scale, group-resolution, framing and rendering
    code.

    Modelling conventions.
    - A JavaScript [number] is modelled by the type [num]: an exact rational,
      or one of the three IEEE special values that the arithmetic of the
      class can produce ([Infinity], [-Infinity], [NaN]).  Division by zero
      behaves as in JavaScript (it never throws).  Rounding, overflow and the
      sign of zero are not modelled: every finite value is exact and zero is
      unsigned (a division by zero takes the sign of its numerator).
    - The fields of a canvas node come out of [JSON.parse] and are finite, so
      they are rationals ([Q]).
    - A thrown [Error] is modelled by the [Throw] result of a small
      state-and-exception monad over the renderer's fields.
    - The SVG element is modelled by the list of its children; the presentation
      attributes of a shape are functions of its "current" flag.
    - Station ids are integers; [toString] is their decimal notation.
    - [loadCanvas] has a single suspension point, before which it only stores
      the path; it is modelled as one step whose input is the outcome of
      reading and parsing the file. *)

From Stdlib Require Import QArith Lqa ZArith Lia List String Ascii Bool.
From Stdlib Require Import DecimalString.
Import ListNotations.

Open Scope Q_scope.

(* ================================================================= *)
(** ** JavaScript numbers *)

Inductive num : Type :=
| Fin (q : Q)
| PosInf
| NegInf
| NaN.

Declare Scope num_scope.
Delimit Scope num_scope with num.
Bind Scope num_scope with num.

Definition Qltb (a b : Q) : bool := negb (Qle_bool b a).

Definition Qzerob (a : Q) : bool := Qeq_bool a 0.

(** Sign of a finite value used when it meets an infinity: [true] when the
    product with [+Infinity] is [+Infinity]. *)
Definition Qposb (a : Q) : bool := Qltb 0 a.

Definition num_opp (a : num) : num :=
  match a with
  | Fin q => Fin (- q)
  | PosInf => NegInf
  | NegInf => PosInf
  | NaN => NaN
  end.

Definition num_add (a b : num) : num :=
  match a, b with
  | NaN, _ | _, NaN => NaN
  | Fin p, Fin q => Fin (p + q)
  | PosInf, NegInf | NegInf, PosInf => NaN
  | PosInf, _ | _, PosInf => PosInf
  | NegInf, _ | _, NegInf => NegInf
  end.

Definition num_sub (a b : num) : num := num_add a (num_opp b).

(** An infinity with the given sign. *)
Definition inf_of (pos : bool) : num := if pos then PosInf else NegInf.

Definition num_mul (a b : num) : num :=
  match a, b with
  | NaN, _ | _, NaN => NaN
  | Fin p, Fin q => Fin (p * q)
  | Fin p, PosInf | PosInf, Fin p =>
      if Qzerob p then NaN else inf_of (Qposb p)
  | Fin p, NegInf | NegInf, Fin p =>
      if Qzerob p then NaN else inf_of (negb (Qposb p))
  | PosInf, PosInf | NegInf, NegInf => PosInf
  | PosInf, NegInf | NegInf, PosInf => NegInf
  end.

Definition num_div (a b : num) : num :=
  match a, b with
  | NaN, _ | _, NaN => NaN
  | Fin p, Fin q =>
      if Qzerob q
      then (if Qzerob p then NaN else inf_of (Qposb p))
      else Fin (p / q)
  | Fin _, PosInf | Fin _, NegInf => Fin 0
  | PosInf, Fin q => inf_of (Qle_bool 0 q)
  | NegInf, Fin q => inf_of (negb (Qle_bool 0 q))
  | _, _ => NaN
  end.

(** [a < b]; every comparison with [NaN] is false. *)
Definition num_ltb (a b : num) : bool :=
  match a, b with
  | NaN, _ | _, NaN => false
  | Fin p, Fin q => Qltb p q
  | PosInf, _ | _, NegInf => false
  | NegInf, _ | _, PosInf => true
  end.

(** [a <= b]. *)
Definition num_leb (a b : num) : bool :=
  match a, b with
  | NaN, _ | _, NaN => false
  | Fin p, Fin q => Qle_bool p q
  | NegInf, _ | _, PosInf => true
  | PosInf, _ | _, NegInf => false
  end.

Definition num_gtb (a b : num) : bool := num_ltb b a.
Definition num_geb (a b : num) : bool := num_leb b a.

Infix "+" := num_add : num_scope.
Infix "-" := num_sub : num_scope.
Infix "*" := num_mul : num_scope.
Infix "/" := num_div : num_scope.
Notation "- a" := (num_opp a) : num_scope.
Infix "<?" := num_ltb : num_scope.
Infix "<=?" := num_leb : num_scope.
Infix ">?" := num_gtb : num_scope.
Infix ">=?" := num_geb : num_scope.

(** [Math.min] and [Math.max].  As in ECMAScript, the result starts at
    [+Infinity] (resp. [-Infinity]), a [NaN] argument makes the result [NaN],
    and an argument replaces the running value only when strictly smaller
    (resp. larger). *)
Definition min2 (lowest n : num) : num :=
  match lowest, n with
  | NaN, _ | _, NaN => NaN
  | _, _ => if num_ltb n lowest then n else lowest
  end.

Definition max2 (highest n : num) : num :=
  match highest, n with
  | NaN, _ | _, NaN => NaN
  | _, _ => if num_ltb highest n then n else highest
  end.

Definition Math_min (args : list num) : num := fold_left min2 args PosInf.
Definition Math_max (args : list num) : num := fold_left max2 args NegInf.

(** Order and equality of numbers as propositions ([NaN] is unordered). *)
Definition num_le (a b : num) : Prop := num_leb a b = true.
Definition num_lt (a b : num) : Prop := num_ltb a b = true.

(** Numerical equality: the same special value, or equal rationals. *)
Definition num_eq (a b : num) : Prop :=
  match a, b with
  | Fin p, Fin q => p == q
  | PosInf, PosInf | NegInf, NegInf | NaN, NaN => True
  | _, _ => False
  end.

Definition is_finite (a : num) : Prop :=
  match a with Fin _ => True | _ => False end.

Infix "<=" := num_le : num_scope.
Infix "<" := num_lt : num_scope.
Infix "==" := num_eq : num_scope.

(* ================================================================= *)
(** ** Data model: the canvas document *)

Inductive NodeType : Type := TyText | TyFile | TyGroup | TyLink.

Definition NodeType_eqb (a b : NodeType) : bool :=
  match a, b with
  | TyText, TyText | TyFile, TyFile | TyGroup, TyGroup | TyLink, TyLink => true
  | _, _ => false
  end.

(** [interface CanvasNode]. *)
Module CanvasNode.
Record t : Type := mk {
  id : string;
  type : NodeType;
  x : Q;
  y : Q;
  width : Q;
  height : Q;
  text : option string;
  file : option string;
  label : option string
}.
End CanvasNode.

(** [interface CanvasData]; the edges are never read by the renderer. *)
Record CanvasData : Type := mkCanvasData {
  nodes : list CanvasNode.t
}.

Record Bounds : Type := mkBounds {
  minX : num;
  maxX : num;
  minY : num;
  maxY : num
}.

(* ================================================================= *)
(** ** The drawing surface *)

(** The elements appended to the transformed [<g>] element. *)
Inductive Shape : Type :=
| GroupRect (x y width height : num) (isCurrentGroup : bool)
| GroupLabel (x y : num) (content : string) (isCurrentGroup : bool)
| StationRect (x y width height : num) (stationId : Z) (isCurrentStation : bool)
| StationText (x y : num) (content : string) (stationId : Z).

(** The children of the [<svg>] element. *)
Inductive SvgChild : Type :=
| Defs
| G (translateX translateY scale : num) (children : list Shape)
| ErrorText (message : string).

Definition group_fill (isCurrentGroup : bool) : string :=
  if isCurrentGroup then "rgba(255, 140, 0, 0.25)" else "rgba(100, 100, 100, 0.05)".
Definition group_stroke (isCurrentGroup : bool) : string :=
  if isCurrentGroup then "#ff8c00" else "rgba(100, 100, 100, 0.2)".
Definition group_stroke_width (isCurrentGroup : bool) : string :=
  if isCurrentGroup then "4" else "1".
Definition group_stroke_dasharray (isCurrentGroup : bool) : string :=
  if isCurrentGroup then "8,4" else "10,10".
Definition station_fill (isCurrentStation : bool) : string :=
  if isCurrentStation then "#ff3333" else "var(--interactive-accent)".

(* ================================================================= *)
(** ** The renderer's fields *)

Record Renderer : Type := mkRenderer {
  canvasData : option CanvasData;
  canvasPath : option string;
  svgElement : option (list SvgChild);
  currentStationId : option Z;
  bounds : Bounds;
  baseScale : num;
  currentZoomScale : num;
  panX : num;
  panY : num
}.

Definition OVERVIEW_WIDTH : Q := 500.
Definition OVERVIEW_HEIGHT : Q := 600.
Definition PADDING : Q := 20.

Definition set_canvasData (v : option CanvasData) (r : Renderer) : Renderer :=
  mkRenderer v (canvasPath r) (svgElement r) (currentStationId r) (bounds r)
             (baseScale r) (currentZoomScale r) (panX r) (panY r).
Definition set_canvasPath (v : option string) (r : Renderer) : Renderer :=
  mkRenderer (canvasData r) v (svgElement r) (currentStationId r) (bounds r)
             (baseScale r) (currentZoomScale r) (panX r) (panY r).
Definition set_svgElement (v : option (list SvgChild)) (r : Renderer) : Renderer :=
  mkRenderer (canvasData r) (canvasPath r) v (currentStationId r) (bounds r)
             (baseScale r) (currentZoomScale r) (panX r) (panY r).
Definition set_currentStationId (v : option Z) (r : Renderer) : Renderer :=
  mkRenderer (canvasData r) (canvasPath r) (svgElement r) v (bounds r)
             (baseScale r) (currentZoomScale r) (panX r) (panY r).
Definition set_bounds (v : Bounds) (r : Renderer) : Renderer :=
  mkRenderer (canvasData r) (canvasPath r) (svgElement r) (currentStationId r) v
             (baseScale r) (currentZoomScale r) (panX r) (panY r).
Definition set_baseScale (v : num) (r : Renderer) : Renderer :=
  mkRenderer (canvasData r) (canvasPath r) (svgElement r) (currentStationId r)
             (bounds r) v (currentZoomScale r) (panX r) (panY r).
Definition set_currentZoomScale (v : num) (r : Renderer) : Renderer :=
  mkRenderer (canvasData r) (canvasPath r) (svgElement r) (currentStationId r)
             (bounds r) (baseScale r) v (panX r) (panY r).
Definition set_panX (v : num) (r : Renderer) : Renderer :=
  mkRenderer (canvasData r) (canvasPath r) (svgElement r) (currentStationId r)
             (bounds r) (baseScale r) (currentZoomScale r) v (panY r).
Definition set_panY (v : num) (r : Renderer) : Renderer :=
  mkRenderer (canvasData r) (canvasPath r) (svgElement r) (currentStationId r)
             (bounds r) (baseScale r) (currentZoomScale r) (panX r) v.

(** The state right after the constructor: [setupContainer] has created an
    empty [<svg>] element and every other field holds its initialiser. *)
Definition new_renderer : Renderer :=
  {| canvasData := None;
     canvasPath := None;
     svgElement := Some [];
     currentStationId := None;
     bounds := mkBounds (Fin 0) (Fin 0) (Fin 0) (Fin 0);
     baseScale := Fin 1;
     currentZoomScale := Fin 1;
     panX := Fin 0;
     panY := Fin 0 |}.

(* ================================================================= *)
(** ** Completions: a method returns normally or throws *)

Inductive Completion (A : Type) : Type :=
| Normal (a : A)
| Throw (message : string).
Arguments Normal {A} a.
Arguments Throw {A} message.

(** A method of the class: it reads and updates the fields, and completes. *)
Definition M (A : Type) : Type := Renderer -> Completion A * Renderer.

Definition ret {A} (a : A) : M A := fun r => (Normal a, r).

Definition bind {A B} (m : M A) (k : A -> M B) : M B :=
  fun r =>
    match m r with
    | (Normal a, r') => k a r'
    | (Throw msg, r') => (Throw msg, r')
    end.

Definition modify (f : Renderer -> Renderer) : M unit :=
  fun r => (Normal tt, f r).

Definition read {A} (f : Renderer -> A) : M A :=
  fun r => (Normal (f r), r).

(** Lift a computation that only reads the fields and may throw. *)
Definition lift {A} (f : Renderer -> Completion A) : M A :=
  fun r => (f r, r).

Notation "x <- m ;; k" := (bind m (fun x => k))
  (at level 100, m at next level, right associativity).
Notation "m ;; k" := (bind m (fun _ => k))
  (at level 100, right associativity).

(* ================================================================= *)
(** ** Strings: [toString], [/^\d+$/], [parseInt], template pieces *)

(** [Number.prototype.toString] on an integral station id. *)
Definition toString (n : Z) : string := NilZero.string_of_int (Z.to_int n).

Definition is_digit (c : ascii) : bool :=
  let k := nat_of_ascii c in (48 <=? k)%nat && (k <=? 57)%nat.

Fixpoint all_digits (s : string) : bool :=
  match s with
  | EmptyString => true
  | String c s' => is_digit c && all_digits s'
  end.

(** [/^\d+$/.test(s)]. *)
Definition digits_test (s : string) : bool :=
  match s with
  | EmptyString => false
  | _ => all_digits s
  end.

Fixpoint parseInt_from (acc : Z) (s : string) : Z :=
  match s with
  | EmptyString => acc
  | String c s' =>
      if is_digit c
      then parseInt_from (10 * acc + Z.of_nat (nat_of_ascii c - 48))%Z s'
      else acc
  end.

(** [parseInt(s)], only ever applied to a string accepted by [digits_test]. *)
Definition parseInt (s : string) : Z := parseInt_from 0%Z s.

(** [s || fallback] on an optional string: absent and empty are falsy. *)
Definition or_else (s : option string) (fallback : string) : string :=
  match s with
  | Some (String c s') => String c s'
  | _ => fallback
  end.

(** An optional string interpolated in a template literal. *)
Definition interpolate (s : option string) : string :=
  match s with
  | Some s' => s'
  | None => "undefined"
  end.

Definition option_string_eqb (a b : option string) : bool :=
  match a, b with
  | Some s, Some s' => String.eqb s s'
  | None, None => true
  | _, _ => false
  end.

(* ================================================================= *)
(** ** Bounds and base scale *)

Definition placeholder_bounds : Bounds :=
  mkBounds (Fin 0) (Fin 100) (Fin 0) (Fin 100).

Definition calculateBounds (r : Renderer) : Renderer :=
  match canvasData r with
  | None => set_bounds placeholder_bounds r
  | Some data =>
      match nodes data with
      | [] => set_bounds placeholder_bounds r
      | ns =>
          set_bounds
            {| minX := Math_min (map (fun n => Fin (CanvasNode.x n)) ns);
               maxX := Math_max (map (fun n => Fin (CanvasNode.x n + CanvasNode.width n)) ns);
               minY := Math_min (map (fun n => Fin (CanvasNode.y n)) ns);
               maxY := Math_max (map (fun n => Fin (CanvasNode.y n + CanvasNode.height n)) ns) |}
            r
      end
  end.

(** The computation of [calculateScale] on a bounds value. *)
Definition scale_of_bounds (b : Bounds) : num :=
  let canvasWidth := (maxX b - minX b)%num in
  let canvasHeight := (maxY b - minY b)%num in
  let scaleX := (Fin (OVERVIEW_WIDTH - 2 * PADDING) / canvasWidth)%num in
  let scaleY := (Fin (OVERVIEW_HEIGHT - 2 * PADDING) / canvasHeight)%num in
  Math_min [scaleX; scaleY; Fin 1].

Definition calculateScale (r : Renderer) : Renderer :=
  set_baseScale (scale_of_bounds (bounds r)) r.

Definition getEffectiveScale (r : Renderer) : num :=
  (baseScale r * currentZoomScale r)%num.

(* ================================================================= *)
(** ** Group resolution *)

Definition isNodeInGroup (node group : CanvasNode.t) : bool :=
  Qle_bool (CanvasNode.x group) (CanvasNode.x node) &&
  Qle_bool (CanvasNode.y group) (CanvasNode.y node) &&
  Qle_bool (CanvasNode.x node + CanvasNode.width node)
           (CanvasNode.x group + CanvasNode.width group) &&
  Qle_bool (CanvasNode.y node + CanvasNode.height node)
           (CanvasNode.y group + CanvasNode.height group).

Definition is_group (n : CanvasNode.t) : bool :=
  NodeType_eqb (CanvasNode.type n) TyGroup.

(** [g.label || g.id]. *)
Definition label_or_id (g : CanvasNode.t) : string :=
  or_else (CanvasNode.label g) (CanvasNode.id g).

Definition multiple_groups_message (node : CanvasNode.t)
    (containingGroups : list CanvasNode.t) : string :=
  String.append "Station "
    (String.append (interpolate (CanvasNode.text node))
       (String.append " belongs to multiple groups: "
          (String.append (String.concat ", " (map label_or_id containingGroups))
             ". Each station must belong to at most one group."))).

Definition findContainingGroup (node : CanvasNode.t) (r : Renderer)
    : Completion (option CanvasNode.t) :=
  match canvasData r with
  | None => Normal None
  | Some data =>
      let groups := filter is_group (nodes data) in
      let containingGroups := filter (isNodeInGroup node) groups in
      if (1 <? List.length containingGroups)%nat
      then Throw (multiple_groups_message node containingGroups)
      else Normal (match containingGroups with
                   | g :: _ => Some g
                   | [] => None
                   end)
  end.

(* ================================================================= *)
(** ** Framing *)

Definition applyPanBounds (r : Renderer) : Renderer :=
  let effectiveScale := getEffectiveScale r in
  let scaledCanvasWidth := ((maxX (bounds r) - minX (bounds r)) * effectiveScale)%num in
  let scaledCanvasHeight := ((maxY (bounds r) - minY (bounds r)) * effectiveScale)%num in
  let availableWidth := Fin (OVERVIEW_WIDTH - 2 * PADDING) in
  let availableHeight := Fin (OVERVIEW_HEIGHT - 2 * PADDING) in
  let r1 :=
    if (scaledCanvasWidth >? availableWidth)%num
    then
      let maxPanX := (scaledCanvasWidth - availableWidth)%num in
      set_panX (Math_max [(- maxPanX)%num; Math_min [Fin 0; panX r]]) r
    else r in
  if (scaledCanvasHeight >? availableHeight)%num
  then
    let maxPanY := (scaledCanvasHeight - availableHeight)%num in
    set_panY (Math_max [(- maxPanY)%num; Math_min [Fin 0; panY r1]]) r1
  else r1.

Definition panToGroup (group : CanvasNode.t) (r : Renderer) : Renderer :=
  let groupWidth := Fin (CanvasNode.width group) in
  let groupHeight := Fin (CanvasNode.height group) in
  let availableWidth := Fin (OVERVIEW_WIDTH - 2 * PADDING) in
  let availableHeight := Fin (OVERVIEW_HEIGHT - 2 * PADDING) in
  let zoomToFitX := (availableWidth / (groupWidth * Fin 1.2))%num in
  let zoomToFitY := (availableHeight / (groupHeight * Fin 1.2))%num in
  let targetZoom := Math_min [zoomToFitX; zoomToFitY] in
  let r1 := set_currentZoomScale (Math_max [(targetZoom / baseScale r)%num; Fin 1]) r in
  let effectiveScale := getEffectiveScale r1 in
  let groupCenterX :=
    ((Fin (CanvasNode.x group + CanvasNode.width group / 2) - minX (bounds r1))
     * effectiveScale)%num in
  let groupCenterY :=
    ((Fin (CanvasNode.y group + CanvasNode.height group / 2) - minY (bounds r1))
     * effectiveScale)%num in
  let centerX := Fin (OVERVIEW_WIDTH / 2) in
  let centerY := Fin (OVERVIEW_HEIGHT / 2) in
  let r2 := set_panX (centerX - groupCenterX)%num r1 in
  let r3 := set_panY (centerY - groupCenterY)%num r2 in
  applyPanBounds r3.

Definition panToNode (node : CanvasNode.t) (r : Renderer) : Renderer :=
  let r1 :=
    set_currentZoomScale
      (Math_min [Fin 3; Math_max [Fin 1.5; (Fin 1 / baseScale r)%num]]) r in
  let effectiveScale := getEffectiveScale r1 in
  let nodeX :=
    ((Fin (CanvasNode.x node + CanvasNode.width node / 2) - minX (bounds r1))
     * effectiveScale)%num in
  let nodeY :=
    ((Fin (CanvasNode.y node + CanvasNode.height node / 2) - minY (bounds r1))
     * effectiveScale)%num in
  let centerX := Fin (OVERVIEW_WIDTH / 2) in
  let centerY := Fin (OVERVIEW_HEIGHT / 2) in
  let r2 := set_panX (centerX - nodeX)%num r1 in
  let r3 := set_panY (centerY - nodeY)%num r2 in
  applyPanBounds r3.

(** The anchor of a station: the first text node whose text is the id's
    decimal string ([expected] is [None] when the id is [null]). *)
Definition is_anchor_of (expected : option string) (node : CanvasNode.t) : bool :=
  NodeType_eqb (CanvasNode.type node) TyText &&
  option_string_eqb (CanvasNode.text node) expected.

Definition panToStation (stationId : Z) : M unit :=
  data <- read canvasData ;;
  match data with
  | None => ret tt
  | Some d =>
      match find (is_anchor_of (Some (toString stationId))) (nodes d) with
      | None => ret tt
      | Some stationNode =>
          containingGroup <- lift (findContainingGroup stationNode) ;;
          match containingGroup with
          | Some group => modify (panToGroup group)
          | None => modify (panToNode stationNode)
          end
      end
  end.

(* ================================================================= *)
(** ** Rendering *)

Definition appendChild (child : SvgChild) (r : Renderer) : Renderer :=
  set_svgElement (option_map (fun children => children ++ [child]) (svgElement r)) r.

(** [currentGroup && currentGroup.id === groupNode.id]. *)
Definition is_current_group (currentGroup : option CanvasNode.t)
    (groupNode : CanvasNode.t) : bool :=
  match currentGroup with
  | Some g => String.eqb (CanvasNode.id g) (CanvasNode.id groupNode)
  | None => false
  end.

(** The shapes one group contributes: its rectangle, then its label when the
    label is truthy. *)
Definition group_shapes (b : Bounds) (currentGroup : option CanvasNode.t)
    (groupNode : CanvasNode.t) : list Shape :=
  let x := (Fin (CanvasNode.x groupNode) - minX b)%num in
  let y := (Fin (CanvasNode.y groupNode) - minY b)%num in
  let isCurrentGroup := is_current_group currentGroup groupNode in
  GroupRect x y (Fin (CanvasNode.width groupNode)) (Fin (CanvasNode.height groupNode))
            isCurrentGroup
  :: match CanvasNode.label groupNode with
     | Some (String c s) =>
         [GroupLabel (x + Fin 8)%num (y + Fin 25)%num (String c s) isCurrentGroup]
     | _ => []
     end.

(** The shapes [renderGroups] appends to the [<g>] element; the lookup of the
    current station's group comes first and may throw. *)
Definition renderGroups (r : Renderer) : Completion (list Shape) :=
  match canvasData r with
  | None => Normal []
  | Some data =>
      let currentStationNode :=
        find (is_anchor_of (option_map toString (currentStationId r))) (nodes data) in
      match
        match currentStationNode with
        | Some node => findContainingGroup node r
        | None => Normal None
        end
      with
      | Throw msg => Throw msg
      | Normal currentGroup =>
          let groups := filter is_group (nodes data) in
          Normal (flat_map (group_shapes (bounds r) currentGroup) groups)
      end
  end.

Definition is_current_station (stationId : Z) (current : option Z) : bool :=
  match current with
  | Some c => Z.eqb stationId c
  | None => false
  end.

Definition node_shapes (b : Bounds) (current : option Z) (node : CanvasNode.t)
    : list Shape :=
  if is_group node then []
  else
    let isStationAnchor :=
      NodeType_eqb (CanvasNode.type node) TyText &&
      digits_test (or_else (CanvasNode.text node) "") in
    if negb isStationAnchor then []
    else
      let x := (Fin (CanvasNode.x node) - minX b)%num in
      let y := (Fin (CanvasNode.y node) - minY b)%num in
      let stationId := parseInt (or_else (CanvasNode.text node) "0") in
      let isCurrentStation := is_current_station stationId current in
      [ StationRect x y (Fin (CanvasNode.width node)) (Fin (CanvasNode.height node))
                    stationId isCurrentStation;
        StationText (x + Fin (CanvasNode.width node / 2))%num
                    (y + Fin (CanvasNode.height node / 2))%num
                    (or_else (CanvasNode.text node) "") stationId ].

Definition renderNodes (r : Renderer) : list Shape :=
  match canvasData r with
  | None => []
  | Some data => flat_map (node_shapes (bounds r) (currentStationId r)) (nodes data)
  end.

Definition render : M unit :=
  fun r =>
    match svgElement r, canvasData r with
    | Some _, Some _ =>
        (modify (set_svgElement (Some [])) ;;
         modify (appendChild Defs) ;;
         groupShapes <- lift renderGroups ;;
         nodeShapes <- read renderNodes ;;
         modify (fun r' =>
           appendChild
             (G (Fin PADDING + panX r')%num (Fin PADDING + panY r')%num
                (getEffectiveScale r') (groupShapes ++ nodeShapes))
             r')) r
    | _, _ => (Normal tt, r)
    end.

Definition showError (message : string) (r : Renderer) : Renderer :=
  match svgElement r with
  | Some _ => set_svgElement (Some [ErrorText message]) r
  | None => r
  end.

(* ================================================================= *)
(** ** The public methods *)

(** [try { body } catch (error) { handler }]. *)
Definition try_catch (body : M unit) (handler : Renderer -> Renderer) : M unit :=
  fun r =>
    match body r with
    | (Normal u, r') => (Normal u, r')
    | (Throw _, r') => (Normal tt, handler r')
    end.

(** [loadCanvas(canvasPath)].  [fetched] is what reading and parsing the file
    yields: [None] when [vault.adapter.read] or [JSON.parse] throws. *)
Definition loadCanvas (path : string) (fetched : option CanvasData) : M unit :=
  try_catch
    (modify (set_canvasPath (Some path)) ;;
     match fetched with
     | None => fun r => (Throw "read or parse failure", r)
     | Some data =>
         modify (set_canvasData (Some data)) ;;
         modify calculateBounds ;;
         modify calculateScale ;;
         render
     end)
    (showError "Failed to load canvas").

Definition setCurrentStation (stationId : Z) : M unit :=
  modify (set_currentStationId (Some stationId)) ;;
  panToStation stationId ;;
  render.

Definition resetZoom : M unit :=
  modify (set_currentZoomScale (Fin 1)) ;;
  modify (set_panX (Fin 0)) ;;
  modify (set_panY (Fin 0)) ;;
  render.

Definition destroy : M unit :=
  modify (set_svgElement None).

(** The calls a host can make on a renderer, and the state they leave behind
    (a host that catches a thrown error keeps using the same object). *)
Inductive Op : Type :=
| OpLoadCanvas (path : string) (fetched : option CanvasData)
| OpSetCurrentStation (stationId : Z)
| OpResetZoom
| OpDestroy.

Definition call (op : Op) : M unit :=
  match op with
  | OpLoadCanvas path fetched => loadCanvas path fetched
  | OpSetCurrentStation stationId => setCurrentStation stationId
  | OpResetZoom => resetZoom
  | OpDestroy => destroy
  end.

Definition step (r : Renderer) (op : Op) : Renderer := snd (call op r).

Definition run (ops : list Op) (r : Renderer) : Renderer := fold_left step ops r.

(** A state is reachable when some sequence of calls leads to it from a
    freshly constructed renderer. *)
Definition reachable (r : Renderer) : Prop := exists ops, r = run ops new_renderer.

(* ================================================================= *)
(** ** Vocabulary of the properties *)

(** [m] is the least element of the non-empty collection [l]. *)
Definition is_min_of (m : num) (l : list Q) : Prop :=
  exists q, m = Fin q /\ In q l /\ forall q', In q' l -> (q <= q')%Q.

(** [m] is the greatest element of the non-empty collection [l]. *)
Definition is_max_of (m : num) (l : list Q) : Prop :=
  exists q, m = Fin q /\ In q l /\ forall q', In q' l -> (q' <= q)%Q.

(** A bounds value with finite corners. *)
Definition finite_bounds (x0 x1 y0 y1 : Q) : Bounds :=
  mkBounds (Fin x0) (Fin x1) (Fin y0) (Fin y1).

(** The base scale as the specification words it: a span of zero is replaced
    by the 100-unit span of the placeholder box before dividing. *)
Definition guard_span (span : Q) : Q := if Qzerob span then 100 else span.

Definition scale_of_bounds_guarded (x0 x1 y0 y1 : Q) : num :=
  let boundsWidth := guard_span (x1 - x0) in
  let boundsHeight := guard_span (y1 - y0) in
  Math_min [ Fin ((OVERVIEW_WIDTH - 2 * PADDING) / boundsWidth);
             Fin ((OVERVIEW_HEIGHT - 2 * PADDING) / boundsHeight);
             Fin 1 ].

(** Geometric containment of a node's rectangle in a group's rectangle. *)
Definition contained (node group : CanvasNode.t) : Prop :=
  (CanvasNode.x node >= CanvasNode.x group)%Q /\
  (CanvasNode.y node >= CanvasNode.y group)%Q /\
  (CanvasNode.x node + CanvasNode.width node
     <= CanvasNode.x group + CanvasNode.width group)%Q /\
  (CanvasNode.y node + CanvasNode.height node
     <= CanvasNode.y group + CanvasNode.height group)%Q.

(** A group-kind node of the document that contains [node]. *)
Definition offending (node : CanvasNode.t) (g : CanvasNode.t) : Prop :=
  CanvasNode.type g = TyGroup /\ contained node g.

(** [needle] occurs in [s]. *)
Definition occurs_in (needle s : string) : Prop :=
  exists before after, s = String.append before (String.append needle after).

(** [clamp(v, lo, hi)]. *)
Definition clamp (v lo hi : num) : num :=
  if (v <? lo)%num then lo else if (hi <? v)%num then hi else v.

(** The transform state of a renderer. *)
Definition transform_state (r : Renderer) : num * num * num * num :=
  (baseScale r, currentZoomScale r, panX r, panY r).

(** The child [render] appends once the group shapes are known. *)
Definition scene (r : Renderer) (groupShapes : list Shape) : SvgChild :=
  G (Fin PADDING + panX r)%num (Fin PADDING + panY r)%num (getEffectiveScale r)
    (groupShapes ++ renderNodes r).

(** What [applyPanBounds] makes of a pan offset on one axis. *)
Definition clamp_pan (scaled available pan : num) : num :=
  if (scaled >? available)%num
  then Math_max [(- (scaled - available))%num; Math_min [Fin 0; pan]]
  else pan.

(** The zoom multipliers chosen by the two framing modes. *)
Definition group_zoom (group : CanvasNode.t) (base : num) : num :=
  Math_max
    [ (Math_min
         [ (Fin (OVERVIEW_WIDTH - 2 * PADDING) / (Fin (CanvasNode.width group) * Fin 1.2))%num;
           (Fin (OVERVIEW_HEIGHT - 2 * PADDING) / (Fin (CanvasNode.height group) * Fin 1.2))%num ]
       / base)%num;
      Fin 1 ].

Definition node_zoom (base : num) : num :=
  Math_min [Fin 3; Math_max [Fin 1.5; (Fin 1 / base)%num]].

(** The state a framing operation leaves: zoom [zoom], the world point
    [(cx, cy)] centred in the viewport, the pan clamped on each axis. *)
Definition frame_on (cx cy : Q) (zoom : num) (r : Renderer) : Renderer :=
  let b := bounds r in
  let effectiveScale := (baseScale r * zoom)%num in
  {| canvasData := canvasData r;
     canvasPath := canvasPath r;
     svgElement := svgElement r;
     currentStationId := currentStationId r;
     bounds := b;
     baseScale := baseScale r;
     currentZoomScale := zoom;
     panX := clamp_pan ((maxX b - minX b) * effectiveScale)%num
                       (Fin (OVERVIEW_WIDTH - 2 * PADDING))
                       (Fin (OVERVIEW_WIDTH / 2) - (Fin cx - minX b) * effectiveScale)%num;
     panY := clamp_pan ((maxY b - minY b) * effectiveScale)%num
                       (Fin (OVERVIEW_HEIGHT - 2 * PADDING))
                       (Fin (OVERVIEW_HEIGHT / 2) - (Fin cy - minY b) * effectiveScale)%num |}.

Definition center_x (n : CanvasNode.t) : Q := CanvasNode.x n + CanvasNode.width n / 2.
Definition center_y (n : CanvasNode.t) : Q := CanvasNode.y n + CanvasNode.height n / 2.

(** The scaled size of the diagram on each axis, and the available size. *)
Definition scaledCanvasWidth (r : Renderer) : num :=
  ((maxX (bounds r) - minX (bounds r)) * getEffectiveScale r)%num.
Definition scaledCanvasHeight (r : Renderer) : num :=
  ((maxY (bounds r) - minY (bounds r)) * getEffectiveScale r)%num.
Definition availableWidth : num := Fin (OVERVIEW_WIDTH - 2 * PADDING).
Definition availableHeight : num := Fin (OVERVIEW_HEIGHT - 2 * PADDING).

(** The groups [findContainingGroup] retains, in document order. *)
Definition containing_groups (node : CanvasNode.t) (ns : list CanvasNode.t)
    : list CanvasNode.t :=
  filter (isNodeInGroup node) (filter is_group ns).

(** The anchor of station [stationId] lies in two or more groups. *)
Definition anchor_in_several_groups (r : Renderer) (stationId : Z) : Prop :=
  exists data node,
    canvasData r = Some data /\
    find (is_anchor_of (Some (toString stationId))) (nodes data) = Some node /\
    (1 < List.length (containing_groups node (nodes data)))%nat.

(** The surface shows a completed scene in which every group of the document
    is drawn and none is drawn in the highlighted style. *)
Definition drawn_with_default_groups (r : Renderer) : Prop :=
  exists data tx ty sc shapes,
    canvasData r = Some data /\
    svgElement r = Some [Defs; G tx ty sc shapes] /\
    (forall g, In g (nodes data) -> is_group g = true ->
       In (GroupRect (Fin (CanvasNode.x g) - minX (bounds r))%num
                     (Fin (CanvasNode.y g) - minY (bounds r))%num
                     (Fin (CanvasNode.width g)) (Fin (CanvasNode.height g)) false)
          shapes) /\
    (forall x y w h, ~ In (GroupRect x y w h true) shapes).

(** Documents whose rectangles have non-negative sizes. *)
Definition wf_data (data : CanvasData) : Prop :=
  Forall (fun n => (0 <= CanvasNode.width n)%Q /\ (0 <= CanvasNode.height n)%Q)
         (nodes data).

Definition wf_op (op : Op) : Prop :=
  match op with
  | OpLoadCanvas _ (Some data) => wf_data data
  | _ => True
  end.

(* ================================================================= *)
(** ** Example documents *)

Definition example_node (id : string) (type : NodeType) (x y width height : Q)
    (text label : option string) : CanvasNode.t :=
  CanvasNode.mk id type x y width height text None label.

(** One group "Room A" holding the anchor of station 7; the anchor of
    station 9 lies outside every group. *)
Definition room_a : CanvasNode.t :=
  example_node "g1" TyGroup 0 0 400 300 None (Some "Room A"%string).
Definition anchor_7 : CanvasNode.t :=
  example_node "n7" TyText 50 50 40 40 (Some "7"%string) None.
Definition anchor_9 : CanvasNode.t :=
  example_node "n9" TyText 500 400 40 40 (Some "9"%string) None.
Definition one_room : CanvasData := mkCanvasData [room_a; anchor_7; anchor_9].

(** Two overlapping groups around the anchor of station 7, and a third group
    "Room C" holding the anchor of station 9. *)
Definition room_b : CanvasNode.t :=
  example_node "g2" TyGroup 0 0 450 350 None None.
Definition room_c : CanvasNode.t :=
  example_node "g3" TyGroup 480 380 100 100 None (Some "Room C"%string).
Definition overlapping_rooms : CanvasData :=
  mkCanvasData [room_a; room_b; room_c; anchor_7; anchor_9].

(** A single group exactly as wide as the padded viewport. *)
Definition wide_room : CanvasNode.t :=
  example_node "g1" TyGroup 0 0 460 300 None (Some "Hall"%string).
Definition one_wide_room : CanvasData := mkCanvasData [wide_room; anchor_7].

(** A group of size zero around an anchor of size zero, next to a file node
    that gives the document a proper extent. *)
Definition point_group : CanvasNode.t :=
  example_node "g0" TyGroup 0 0 0 0 None None.
Definition point_anchor : CanvasNode.t :=
  example_node "n1" TyText 0 0 0 0 (Some "1"%string) None.
Definition big_file : CanvasNode.t :=
  example_node "f" TyFile 0 0 1000 1000 None None.
Definition point_in_point_group : CanvasData :=
  mkCanvasData [point_group; point_anchor; big_file].

(** A document whose only node is a point. *)
Definition point_node : CanvasNode.t :=
  example_node "p" TyText 10 10 0 0 (Some "1"%string) None.
Definition one_point : CanvasData := mkCanvasData [point_node].

(* ================================================================= *)
(** * Properties *)

(** ** Reflection of the comparisons *)

Lemma Qle_bool_spec (a b : Q) : reflect (a <= b)%Q (Qle_bool a b).
Proof. apply iff_reflect. symmetry. apply Qle_bool_iff. Qed.

Lemma Qltb_spec (a b : Q) : reflect (a < b)%Q (Qltb a b).
Proof.
  unfold Qltb. destruct (Qle_bool_spec b a); simpl; constructor; lra.
Qed.

Lemma Qzerob_spec (a : Q) : reflect (a == 0)%Q (Qzerob a).
Proof. apply iff_reflect. symmetry. apply Qeq_bool_iff. Qed.

Lemma Qposb_spec (a : Q) : reflect (0 < a)%Q (Qposb a).
Proof. apply Qltb_spec. Qed.

(** Case analysis on every comparison of rationals in the goal. *)
Ltac qcase :=
  repeat match goal with
  | |- context [Qle_bool ?a ?b] => destruct (Qle_bool_spec a b)
  | |- context [Qltb ?a ?b] => destruct (Qltb_spec a b)
  | |- context [Qzerob ?a] => destruct (Qzerob_spec a)
  | |- context [Qposb ?a] => destruct (Qposb_spec a)
  end.

Lemma num_le_Fin (p q : Q) : (Fin p <= Fin q)%num <-> (p <= q)%Q.
Proof. unfold num_le; simpl. apply Qle_bool_iff. Qed.

Lemma num_lt_Fin (p q : Q) : (Fin p < Fin q)%num <-> (p < q)%Q.
Proof. unfold num_lt; simpl. destruct (Qltb_spec p q); split; auto; discriminate. Qed.

(* ================================================================= *)
(** ** Bounds *)

Lemma fold_min2_Fin (l : list Q) (acc : Q) :
  exists m, fold_left min2 (map Fin l) (Fin acc) = Fin m /\
            In m (acc :: l) /\ forall q, In q (acc :: l) -> (m <= q)%Q.
Proof.
  revert acc. induction l as [|a l IH]; intros acc.
  - exists acc. simpl. repeat split; auto.
    intros q [<-|[]]. lra.
  - simpl fold_left. simpl min2.
    destruct (Qltb_spec a acc) as [Hlt|Hge];
      [destruct (IH a) as (m & Hm & Hin & Hle) | destruct (IH acc) as (m & Hm & Hin & Hle)];
      exists m; (split; [exact Hm|]); split.
    + destruct Hin as [<-|Hin]; simpl; auto.
    + intros q [<-|[<-|Hq]].
      * specialize (Hle a (or_introl eq_refl)). lra.
      * apply Hle. left; reflexivity.
      * apply Hle. right; exact Hq.
    + destruct Hin as [<-|Hin]; simpl; auto.
    + intros q [<-|[<-|Hq]].
      * apply Hle. left; reflexivity.
      * specialize (Hle acc (or_introl eq_refl)). lra.
      * apply Hle. right; exact Hq.
Qed.

Lemma fold_max2_Fin (l : list Q) (acc : Q) :
  exists m, fold_left max2 (map Fin l) (Fin acc) = Fin m /\
            In m (acc :: l) /\ forall q, In q (acc :: l) -> (q <= m)%Q.
Proof.
  revert acc. induction l as [|a l IH]; intros acc.
  - exists acc. simpl. repeat split; auto.
    intros q [<-|[]]. lra.
  - simpl fold_left. simpl max2.
    destruct (Qltb_spec acc a) as [Hlt|Hge];
      [destruct (IH a) as (m & Hm & Hin & Hle) | destruct (IH acc) as (m & Hm & Hin & Hle)];
      exists m; (split; [exact Hm|]); split.
    + destruct Hin as [<-|Hin]; simpl; auto.
    + intros q [<-|[<-|Hq]].
      * specialize (Hle a (or_introl eq_refl)). lra.
      * apply Hle. left; reflexivity.
      * apply Hle. right; exact Hq.
    + destruct Hin as [<-|Hin]; simpl; auto.
    + intros q [<-|[<-|Hq]].
      * apply Hle. left; reflexivity.
      * specialize (Hle acc (or_introl eq_refl)). lra.
      * apply Hle. right; exact Hq.
Qed.

(** [Math.min] of a non-empty collection of finite numbers is its least
    element. *)
Lemma Math_min_is_min {A : Type} (f : A -> Q) (a : A) (l : list A) :
  is_min_of (Math_min (map (fun n => Fin (f n)) (a :: l))) (map f (a :: l)).
Proof.
  unfold Math_min, is_min_of. simpl fold_left.
  rewrite <- (map_map f Fin l).
  destruct (fold_min2_Fin (map f l) (f a)) as (m & Hm & Hin & Hle).
  exists m. auto.
Qed.

Lemma Math_max_is_max {A : Type} (f : A -> Q) (a : A) (l : list A) :
  is_max_of (Math_max (map (fun n => Fin (f n)) (a :: l))) (map f (a :: l)).
Proof.
  unfold Math_max, is_max_of. simpl fold_left.
  rewrite <- (map_map f Fin l).
  destruct (fold_max2_Fin (map f l) (f a)) as (m & Hm & Hin & Hle).
  exists m. auto.
Qed.

(** C3.  For a non-empty node collection the computed bounds have [minX]
    the minimum of the nodes' [x], [maxX] the maximum of [x + width], [minY]
    the minimum of [y] and [maxY] the maximum of [y + height]; for the empty
    collection the bounds are the placeholder box [{0,100,0,100}]. *)
Theorem calculateBounds_correct (r : Renderer) (data : CanvasData) :
  canvasData r = Some data ->
  let b := bounds (calculateBounds r) in
  (nodes data = [] ->
     b = {| minX := Fin 0; maxX := Fin 100; minY := Fin 0; maxY := Fin 100 |}) /\
  (nodes data <> [] ->
     is_min_of (minX b) (map CanvasNode.x (nodes data)) /\
     is_max_of (maxX b)
       (map (fun n => CanvasNode.x n + CanvasNode.width n)%Q (nodes data)) /\
     is_min_of (minY b) (map CanvasNode.y (nodes data)) /\
     is_max_of (maxY b)
       (map (fun n => CanvasNode.y n + CanvasNode.height n)%Q (nodes data))).
Proof.
  intros Hdata b. subst b. unfold calculateBounds. rewrite Hdata.
  destruct (nodes data) as [|n ns]; split; intros H; try congruence.
  - reflexivity.
  - cbn [bounds set_bounds minX maxX minY maxY].
    repeat split.
    + apply (Math_min_is_min CanvasNode.x).
    + apply (Math_max_is_max (fun n => CanvasNode.x n + CanvasNode.width n)%Q).
    + apply (Math_min_is_min CanvasNode.y).
    + apply (Math_max_is_max (fun n => CanvasNode.y n + CanvasNode.height n)%Q).
Qed.

(* ================================================================= *)
(** ** Base scale *)

Lemma Qdiv_lt_1 (a b : Q) : (0 < a -> a < b -> a / b < 1)%Q.
Proof. intros Ha Hab. apply Qlt_shift_div_r; lra. Qed.

Lemma Qdiv_ge_1 (a b : Q) : (0 < b -> b <= a -> 1 <= a / b)%Q.
Proof. intros Hb Hab. apply Qle_shift_div_l; lra. Qed.

Lemma Qdiv_pos (a b : Q) : (0 < a -> 0 < b -> 0 < a / b)%Q.
Proof. intros Ha Hb. apply Qlt_shift_div_l; lra. Qed.

Lemma Qdiv_neg (a b : Q) : (0 < a -> b < 0 -> a / b < 0)%Q.
Proof.
  intros Ha Hb.
  assert (H : (0 < a / - b)%Q) by (apply Qdiv_pos; lra).
  assert (E : (a / - b == - (a / b))%Q) by (field; lra).
  rewrite E in H. lra.
Qed.

Lemma scale_of_finite_bounds (x0 x1 y0 y1 : Q) :
  scale_of_bounds (finite_bounds x0 x1 y0 y1) =
  Math_min [ (Fin (OVERVIEW_WIDTH - 2 * PADDING) / Fin (x1 - x0))%num;
             (Fin (OVERVIEW_HEIGHT - 2 * PADDING) / Fin (y1 - y0))%num;
             Fin 1 ].
Proof. reflexivity. Qed.

(** A positive numerator over a finite divisor: [Infinity] on a zero divisor,
    the quotient otherwise. *)
Lemma avail_div (a w : Q) :
  (0 < a)%Q ->
  (Fin a / Fin w)%num = if Qzerob w then PosInf else Fin (a / w).
Proof.
  intros Ha. simpl. destruct (Qzerob_spec w); [|reflexivity].
  destruct (Qzerob_spec a); [lra|].
  destruct (Qposb_spec a); [reflexivity|lra].
Qed.

(** Decide a goal made of comparisons of numbers by cases on the
    comparisons of the rationals underneath. *)
Ltac num_goal :=
  unfold num_lt, num_le, num_eq, num_gtb, num_geb;
  repeat (simpl; qcase);
  try reflexivity; try discriminate; try lra; try (exfalso; lra).

Lemma Qnonzero_pos (w : Q) : (0 <= w)%Q -> ~ (w == 0)%Q -> (0 < w)%Q.
Proof.
  intros H0 Hz. destruct (Qlt_le_dec 0 w); [assumption|].
  exfalso; apply Hz; lra.
Qed.

(** C4.  The base scale is [min((W - 2P) / boundsWidth, (H - 2P) /
    boundsHeight, 1)]: it is below each of the three and is one of them; it is
    strictly below 1 when the bounds are wider or taller than the padded
    viewport, and exactly 1 when they are smaller on both axes. *)
Theorem calculateScale_never_upscales (r : Renderer) (x0 x1 y0 y1 : Q) :
  bounds r = finite_bounds x0 x1 y0 y1 ->
  let boundsWidth := (x1 - x0)%Q in
  let boundsHeight := (y1 - y0)%Q in
  let scaleX := (Fin (OVERVIEW_WIDTH - 2 * PADDING) / Fin boundsWidth)%num in
  let scaleY := (Fin (OVERVIEW_HEIGHT - 2 * PADDING) / Fin boundsHeight)%num in
  let s := baseScale (calculateScale r) in
  s = Math_min [scaleX; scaleY; Fin 1] /\
  ((s <= scaleX)%num /\ (s <= scaleY)%num /\ (s <= Fin 1)%num) /\
  (s = scaleX \/ s = scaleY \/ s = Fin 1) /\
  ((OVERVIEW_WIDTH - 2 * PADDING < boundsWidth \/
    OVERVIEW_HEIGHT - 2 * PADDING < boundsHeight)%Q -> (s < Fin 1)%num) /\
  ((0 <= boundsWidth <= OVERVIEW_WIDTH - 2 * PADDING /\
    0 <= boundsHeight <= OVERVIEW_HEIGHT - 2 * PADDING)%Q -> (s == Fin 1)%num).
Proof.
  intros Hb w h scaleX scaleY s.
  assert (Hs : s = Math_min [scaleX; scaleY; Fin 1]).
  { subst s. unfold calculateScale. cbn [baseScale set_baseScale].
    rewrite Hb. apply scale_of_finite_bounds. }
  split; [exact Hs|]. rewrite Hs. clear Hs s Hb.
  subst scaleX scaleY. rewrite !avail_div by reflexivity.
  set (aw := (OVERVIEW_WIDTH - 2 * PADDING)%Q).
  set (ah := (OVERVIEW_HEIGHT - 2 * PADDING)%Q).
  assert (HW : (aw == 460)%Q) by reflexivity.
  assert (HH : (ah == 560)%Q) by reflexivity.
  assert (Fx1 : (460 < w -> aw / w < 1)%Q) by (intros; apply Qdiv_lt_1; lra).
  assert (Fy1 : (560 < h -> ah / h < 1)%Q) by (intros; apply Qdiv_lt_1; lra).
  assert (Fx2 : (0 < w -> w <= 460 -> 1 <= aw / w)%Q) by (intros; apply Qdiv_ge_1; lra).
  assert (Fy2 : (0 < h -> h <= 560 -> 1 <= ah / h)%Q) by (intros; apply Qdiv_ge_1; lra).
  clearbody aw ah w h.
  unfold Math_min. cbn [fold_left].
  split; [|split; [|split]].
  - destruct (Qzerob_spec w); destruct (Qzerob_spec h);
      repeat split; num_goal.
  - destruct (Qzerob_spec w); destruct (Qzerob_spec h);
      repeat (simpl; qcase); auto.
  - intros [H|H]; [specialize (Fx1 ltac:(lra))|specialize (Fy1 ltac:(lra))];
      destruct (Qzerob_spec w); destruct (Qzerob_spec h); try lra; num_goal.
  - intros [[Hw0 Hw1] [Hh0 Hh1]].
    destruct (Qzerob_spec w) as [Zw|Zw]; destruct (Qzerob_spec h) as [Zh|Zh];
      try (pose proof (Qnonzero_pos w Hw0 Zw);
           specialize (Fx2 ltac:(assumption) ltac:(lra)));
      try (pose proof (Qnonzero_pos h Hh0 Zh);
           specialize (Fy2 ltac:(assumption) ltac:(lra)));
      num_goal.
Qed.

(** The base scale of finite bounds is a finite non-zero number, positive
    when neither span is negative. *)
Lemma scale_of_finite_bounds_nonzero (x0 x1 y0 y1 : Q) :
  exists q, scale_of_bounds (finite_bounds x0 x1 y0 y1) = Fin q /\
            ~ (q == 0)%Q /\
            ((x0 <= x1)%Q -> (y0 <= y1)%Q -> (0 < q)%Q).
Proof.
  rewrite scale_of_finite_bounds.
  rewrite !avail_div by reflexivity.
  set (w := (x1 - x0)%Q). set (h := (y1 - y0)%Q).
  assert (Hw : (x0 <= x1 -> 0 <= w)%Q) by (unfold w; intros; lra).
  assert (Hh : (y0 <= y1 -> 0 <= h)%Q) by (unfold h; intros; lra).
  set (aw := (OVERVIEW_WIDTH - 2 * PADDING)%Q).
  set (ah := (OVERVIEW_HEIGHT - 2 * PADDING)%Q).
  assert (HW : (0 < aw)%Q) by reflexivity.
  assert (HH : (0 < ah)%Q) by reflexivity.
  assert (Fx : (~ w == 0 -> ~ aw / w == 0)%Q).
  { intros Zw E. apply Zw. assert (E' : (aw == (aw / w) * w)%Q) by (field; exact Zw).
    rewrite E in E'. lra. }
  assert (Fy : (~ h == 0 -> ~ ah / h == 0)%Q).
  { intros Zh E. apply Zh. assert (E' : (ah == (ah / h) * h)%Q) by (field; exact Zh).
    rewrite E in E'. lra. }
  assert (Px : (0 < w -> 0 < aw / w)%Q) by (intros; apply Qdiv_pos; assumption).
  assert (Py : (0 < h -> 0 < ah / h)%Q) by (intros; apply Qdiv_pos; assumption).
  clearbody aw ah w h.
  unfold Math_min. cbn [fold_left].
  destruct (Qzerob_spec w) as [Zw|Zw]; destruct (Qzerob_spec h) as [Zh|Zh];
    try specialize (Fx Zw); try specialize (Fy Zh);
    repeat (simpl; qcase); eexists; (split; [reflexivity|]); (split; [try assumption; try lra|]);
    intros H1 H2; specialize (Hw H1); specialize (Hh H2);
    try (pose proof (Px (Qnonzero_pos w Hw Zw)));
    try (pose proof (Py (Qnonzero_pos h Hh Zh))); lra.
Qed.

(** C5.  The base scale of any finite bounds is the one obtained by replacing
    a zero span by the placeholder's 100-unit span before dividing, and it is
    always a finite number: the computation is total and never yields an
    undefined value. *)
Theorem calculateScale_zero_span_guarded (r : Renderer) (x0 x1 y0 y1 : Q) :
  bounds r = finite_bounds x0 x1 y0 y1 ->
  baseScale (calculateScale r) = scale_of_bounds_guarded x0 x1 y0 y1 /\
  is_finite (baseScale (calculateScale r)).
Proof.
  intros Hb. unfold calculateScale. cbn [baseScale set_baseScale]. rewrite Hb.
  split.
  - rewrite scale_of_finite_bounds. unfold scale_of_bounds_guarded, guard_span.
    rewrite !avail_div by reflexivity.
    set (w := (x1 - x0)%Q). set (h := (y1 - y0)%Q).
    set (aw := (OVERVIEW_WIDTH - 2 * PADDING)%Q).
    set (ah := (OVERVIEW_HEIGHT - 2 * PADDING)%Q).
    assert (HW : (1 < aw / 100)%Q) by reflexivity.
    assert (HH : (1 < ah / 100)%Q) by reflexivity.
    clearbody aw ah w h.
    unfold Math_min. cbn [fold_left].
    destruct (Qzerob_spec w); destruct (Qzerob_spec h);
      repeat (simpl; qcase); try reflexivity; exfalso; lra.
  - destruct (scale_of_finite_bounds_nonzero x0 x1 y0 y1) as (q & Hq & _).
    rewrite Hq. exact I.
Qed.

(* ================================================================= *)
(** ** Group resolution *)

Lemma isNodeInGroup_contained (node group : CanvasNode.t) :
  isNodeInGroup node group = true <-> contained node group.
Proof.
  unfold isNodeInGroup, contained.
  rewrite !andb_true_iff, !Qle_bool_iff. unfold Qge. tauto.
Qed.

Lemma is_group_type (g : CanvasNode.t) :
  is_group g = true <-> CanvasNode.type g = TyGroup.
Proof.
  unfold is_group. destruct (CanvasNode.type g); simpl; split; congruence.
Qed.

Lemma containing_groups_In (node g : CanvasNode.t) (ns : list CanvasNode.t) :
  In g (containing_groups node ns) <-> In g ns /\ offending node g.
Proof.
  unfold containing_groups, offending.
  rewrite !filter_In, is_group_type, isNodeInGroup_contained. tauto.
Qed.

Lemma containing_groups_app (node : CanvasNode.t) (l l' : list CanvasNode.t) :
  containing_groups node (l ++ l') =
  containing_groups node l ++ containing_groups node l'.
Proof. unfold containing_groups. rewrite !filter_app. reflexivity. Qed.

Lemma containing_groups_cons_offending (node g : CanvasNode.t) (l : list CanvasNode.t) :
  offending node g ->
  containing_groups node (g :: l) = g :: containing_groups node l.
Proof.
  intros [Hty Hin]. unfold containing_groups. simpl.
  apply is_group_type in Hty. rewrite Hty. simpl.
  apply isNodeInGroup_contained in Hin. rewrite Hin. reflexivity.
Qed.

Lemma containing_groups_none (node : CanvasNode.t) (l : list CanvasNode.t) :
  (forall g, In g l -> ~ offending node g) -> containing_groups node l = [].
Proof.
  intros H. destruct (containing_groups node l) as [|g gs] eqn:E; [reflexivity|].
  exfalso. assert (Hg : In g (containing_groups node l)) by (rewrite E; left; reflexivity).
  apply containing_groups_In in Hg. destruct Hg as [Hin Hoff]. exact (H g Hin Hoff).
Qed.

Lemma append_assoc (a b c : string) :
  String.append (String.append a b) c = String.append a (String.append b c).
Proof. induction a as [|ch a IH]; simpl; [reflexivity|]. rewrite IH. reflexivity. Qed.

Lemma occurs_in_prefix (needle pre s : string) :
  occurs_in needle s -> occurs_in needle (String.append pre s).
Proof.
  intros (b & a & ->). exists (String.append pre b), a.
  rewrite append_assoc. reflexivity.
Qed.

Lemma occurs_in_suffix (needle s post : string) :
  occurs_in needle s -> occurs_in needle (String.append s post).
Proof.
  intros (b & a & ->). exists b, (String.append a post).
  rewrite !append_assoc. reflexivity.
Qed.

Lemma occurs_in_self (s : string) : occurs_in s s.
Proof.
  exists EmptyString, EmptyString. simpl.
  induction s as [|c s IH]; simpl; [reflexivity|]. rewrite <- IH. reflexivity.
Qed.

(** Every joined item occurs in the result of [join]. *)
Lemma occurs_in_concat (sep item : string) (items : list string) :
  In item items -> occurs_in item (String.concat sep items).
Proof.
  induction items as [|a [|b items] IH]; intros Hin.
  - destruct Hin.
  - destruct Hin as [<-|[]]. apply occurs_in_self.
  - change (String.concat sep (a :: b :: items))
      with (String.append a (String.append sep (String.concat sep (b :: items)))).
    destruct Hin as [<-|Hin].
    + apply occurs_in_suffix, occurs_in_self.
    + apply occurs_in_prefix, occurs_in_prefix, IH, Hin.
Qed.

(** C2.  Group resolution returns [null] when no group-kind node contains the
    node, returns the group when exactly one contains it, and when two or more
    contain it throws an error whose message names the node's text and the
    label (or id) of every offending group: the [text] field of the node
    occurs in the message (the word "undefined" when the node has none), and
    so does, for every offending group, its [label] field when that is a
    non-empty string and its [id] field when the label is absent or empty. *)
Theorem findContainingGroup_resolution
    (r : Renderer) (data : CanvasData) (node : CanvasNode.t) :
  canvasData r = Some data ->
  ((forall g, In g (nodes data) -> ~ offending node g) ->
     findContainingGroup node r = Normal None) /\
  (forall before g after,
     nodes data = before ++ g :: after ->
     offending node g ->
     (forall g', In g' (before ++ after) -> ~ offending node g') ->
     findContainingGroup node r = Normal (Some g)) /\
  (forall l1 g1 l2 g2 l3,
     nodes data = l1 ++ g1 :: l2 ++ g2 :: l3 ->
     offending node g1 -> offending node g2 ->
     exists msg,
       findContainingGroup node r = Throw msg /\
       (forall text, CanvasNode.text node = Some text -> occurs_in text msg) /\
       (CanvasNode.text node = None -> occurs_in "undefined" msg) /\
       forall g, In g (nodes data) -> offending node g ->
         (forall c label, CanvasNode.label g = Some (String c label) ->
                          occurs_in (String c label) msg) /\
         (CanvasNode.label g = None \/ CanvasNode.label g = Some EmptyString ->
          occurs_in (CanvasNode.id g) msg)).
Proof.
  intros Hdata. unfold findContainingGroup. rewrite Hdata.
  fold (containing_groups node (nodes data)).
  split; [|split].
  - intros Hnone. rewrite (containing_groups_none _ _ Hnone). reflexivity.
  - intros before g after Hns Hg Hothers. rewrite Hns.
    rewrite containing_groups_app, (containing_groups_cons_offending _ _ _ Hg).
    rewrite (containing_groups_none node before), (containing_groups_none node after).
    + reflexivity.
    + intros g' Hin. apply Hothers, in_or_app. right; exact Hin.
    + intros g' Hin. apply Hothers, in_or_app. left; exact Hin.
  - intros l1 g1 l2 g2 l3 Hns Hg1 Hg2.
    assert (Hlen : (1 <? List.length (containing_groups node (nodes data)))%nat = true).
    { rewrite Hns. rewrite containing_groups_app,
        (containing_groups_cons_offending _ _ _ Hg1), containing_groups_app,
        (containing_groups_cons_offending _ _ _ Hg2).
      apply Nat.ltb_lt. rewrite !length_app. simpl. rewrite length_app. simpl. lia. }
    rewrite Hlen. eexists. split; [reflexivity|]. split; [|split].
    + intros text Htext. unfold multiple_groups_message. rewrite Htext.
      apply occurs_in_prefix, occurs_in_suffix, occurs_in_self.
    + intros Htext. unfold multiple_groups_message. rewrite Htext.
      apply occurs_in_prefix, occurs_in_suffix, occurs_in_self.
    + intros g Hin Hoff.
      assert (Hname : occurs_in (label_or_id g)
                        (multiple_groups_message node
                           (containing_groups node (nodes data)))).
      { unfold multiple_groups_message.
        do 3 apply occurs_in_prefix. apply occurs_in_suffix.
        apply occurs_in_concat, in_map.
        apply containing_groups_In. split; assumption. }
      unfold label_or_id in Hname. split.
      * intros c label Hlabel. rewrite Hlabel in Hname. exact Hname.
      * intros [Hlabel|Hlabel]; rewrite Hlabel in Hname; exact Hname.
Qed.

(* ================================================================= *)
(** ** The methods in closed form *)

(** Reduce projections of updated records. *)
Ltac fields :=
  cbn [set_canvasData set_canvasPath set_svgElement set_currentStationId set_bounds
       set_baseScale set_currentZoomScale set_panX set_panY
       canvasData canvasPath svgElement currentStationId bounds baseScale
       currentZoomScale panX panY appendChild option_map fst snd] in *.

Lemma applyPanBounds_eq (r : Renderer) :
  applyPanBounds r =
  set_panY (clamp_pan (scaledCanvasHeight r) availableHeight (panY r))
    (set_panX (clamp_pan (scaledCanvasWidth r) availableWidth (panX r)) r).
Proof.
  destruct r as [cd cp svg cs b bs z px py].
  unfold applyPanBounds, clamp_pan, scaledCanvasWidth, scaledCanvasHeight,
    availableWidth, availableHeight, getEffectiveScale.
  fields.
  destruct (_ >? Fin (OVERVIEW_WIDTH - 2 * PADDING))%num; fields;
    destruct (_ >? Fin (OVERVIEW_HEIGHT - 2 * PADDING))%num; reflexivity.
Qed.

Lemma panToGroup_eq (group : CanvasNode.t) (r : Renderer) :
  panToGroup group r =
  frame_on (center_x group) (center_y group) (group_zoom group (baseScale r)) r.
Proof.
  unfold panToGroup. rewrite applyPanBounds_eq.
  destruct r as [cd cp svg cs b bs z px py]. reflexivity.
Qed.

Lemma panToNode_eq (node : CanvasNode.t) (r : Renderer) :
  panToNode node r =
  frame_on (center_x node) (center_y node) (node_zoom (baseScale r)) r.
Proof.
  unfold panToNode. rewrite applyPanBounds_eq.
  destruct r as [cd cp svg cs b bs z px py]. reflexivity.
Qed.

Lemma findContainingGroup_eq (node : CanvasNode.t) (r : Renderer) :
  findContainingGroup node r =
  match canvasData r with
  | None => Normal None
  | Some data =>
      let containingGroups := containing_groups node (nodes data) in
      if (1 <? List.length containingGroups)%nat
      then Throw (multiple_groups_message node containingGroups)
      else Normal (hd_error containingGroups)
  end.
Proof.
  unfold findContainingGroup, containing_groups.
  destruct (canvasData r) as [data|]; [|reflexivity].
  cbv zeta. destruct (filter _ _); reflexivity.
Qed.

Lemma panToStation_eq (stationId : Z) (r : Renderer) :
  panToStation stationId r =
  match canvasData r with
  | None => (Normal tt, r)
  | Some data =>
      match find (is_anchor_of (Some (toString stationId))) (nodes data) with
      | None => (Normal tt, r)
      | Some stationNode =>
          match findContainingGroup stationNode r with
          | Throw msg => (Throw msg, r)
          | Normal (Some group) => (Normal tt, panToGroup group r)
          | Normal None => (Normal tt, panToNode stationNode r)
          end
      end
  end.
Proof.
  unfold panToStation, bind, read, ret, lift, modify.
  destruct (canvasData r) as [data|]; [|reflexivity].
  destruct (find _ _) as [n|]; [|reflexivity].
  destruct (findContainingGroup n r) as [[g|]|msg]; reflexivity.
Qed.

Lemma render_eq (r : Renderer) :
  render r =
  match svgElement r, canvasData r with
  | Some _, Some _ =>
      match renderGroups r with
      | Throw msg => (Throw msg, set_svgElement (Some [Defs]) r)
      | Normal groupShapes =>
          (Normal tt, set_svgElement (Some [Defs; scene r groupShapes]) r)
      end
  | _, _ => (Normal tt, r)
  end.
Proof.
  destruct r as [cd cp svg cs b bs z px py].
  unfold render, bind, modify, lift, read. fields.
  destruct svg as [children|]; [|reflexivity].
  destruct cd as [data|]; [|reflexivity].
  unfold appendChild. fields.
  match goal with |- context [renderGroups ?x] =>
    change (renderGroups x)
      with (renderGroups (mkRenderer (Some data) cp (Some children) cs b bs z px py))
  end.
  destruct (renderGroups _); reflexivity.
Qed.

Lemma setCurrentStation_eq (stationId : Z) (r : Renderer) :
  setCurrentStation stationId r =
  match panToStation stationId (set_currentStationId (Some stationId) r) with
  | (Normal _, r') => render r'
  | (Throw msg, r') => (Throw msg, r')
  end.
Proof.
  unfold setCurrentStation, bind, modify.
  destruct (panToStation _ _) as [[u|msg] r']; reflexivity.
Qed.

(* ================================================================= *)
(** ** Document load and the transform state *)

Lemma calculateBounds_frame (r : Renderer) :
  calculateBounds r = set_bounds (bounds (calculateBounds r)) r.
Proof.
  unfold calculateBounds. destruct (canvasData r) as [data|]; [|reflexivity].
  destruct (nodes data); reflexivity.
Qed.

(** What a load leaves untouched, and the base scale it computes. *)
Lemma loadCanvas_fields (path : string) (fetched : option CanvasData) (r : Renderer) :
  let r' := snd (loadCanvas path fetched r) in
  currentZoomScale r' = currentZoomScale r /\
  panX r' = panX r /\
  panY r' = panY r /\
  match fetched with
  | None => baseScale r' = baseScale r
  | Some data =>
      exists r2, canvasData r2 = Some data /\
                 baseScale r' = scale_of_bounds (bounds (calculateBounds r2))
  end.
Proof.
  unfold loadCanvas, try_catch, bind, modify.
  destruct fetched as [data|].
  - set (r2 := set_canvasData (Some data) (set_canvasPath (Some path) r)).
    set (r3 := calculateScale (calculateBounds r2)).
    assert (E : r3 = set_baseScale (scale_of_bounds (bounds (calculateBounds r2)))
                       (set_bounds (bounds (calculateBounds r2)) r2)).
    { subst r3. unfold calculateScale. rewrite calculateBounds_frame at 2. reflexivity. }
    clearbody r3. set (b2 := bounds (calculateBounds r2)) in *.
    assert (Hr2 : canvasData r2 = Some data) by reflexivity.
    rewrite render_eq. subst r3. destruct r as [cd cp svg cs b bs z px py].
    fields. unfold showError.
    destruct svg as [children|]; fields.
    + destruct (renderGroups _); fields; repeat split; try reflexivity;
        exists r2; split; auto.
    + repeat split; try reflexivity. exists r2; split; auto.
  - unfold showError. destruct r as [cd cp svg cs b bs z px py]. fields.
    destruct svg; fields; auto.
Qed.

(** C6 (amended).  A document load never writes the transform state:
    [currentZoomScale], [panX] and [panY] are the same after the load as
    before it, whether the load succeeds or fails.  They hold 1, 0 and 0
    after a load on a freshly constructed renderer. *)
Theorem loadCanvas_keeps_transform
    (path : string) (fetched : option CanvasData) (r : Renderer) :
  (let r' := snd (loadCanvas path fetched r) in
   currentZoomScale r' = currentZoomScale r /\
   panX r' = panX r /\
   panY r' = panY r) /\
  (let r' := snd (loadCanvas path fetched new_renderer) in
   currentZoomScale r' = Fin 1 /\ panX r' = Fin 0 /\ panY r' = Fin 0).
Proof.
  split.
  - destruct (loadCanvas_fields path fetched r) as (Hz & Hx & Hy & _). auto.
  - destruct (loadCanvas_fields path fetched new_renderer) as (Hz & Hx & Hy & _). auto.
Qed.

(** C6 as first stated does not hold: the transform set by a highlight change
    is still there after a reload of the same document, the zoom multiplier
    being 1.5 and not 1. *)
Lemma reload_keeps_framing :
  let r := run [ OpLoadCanvas "palace.canvas" (Some one_room);
                 OpSetCurrentStation 9;
                 OpLoadCanvas "palace.canvas" (Some one_room) ] new_renderer in
  ~ ((currentZoomScale r == Fin 1)%num /\
     (panX r == Fin 0)%num /\
     (panY r == Fin 0)%num).
Proof.
  intros r [H _]. vm_compute in H. discriminate H.
Qed.

(* ================================================================= *)
(** ** Pan clamping *)

Lemma clamp_pan_range (available : Q) (scaled pan : num) :
  (Fin available < scaled)%num -> pan <> NaN ->
  (- (scaled - Fin available) <= clamp_pan scaled (Fin available) pan)%num /\
  (clamp_pan scaled (Fin available) pan <= Fin 0)%num.
Proof.
  intros Hlt Hpan. unfold clamp_pan, num_gtb.
  unfold num_lt in Hlt. rewrite Hlt.
  unfold Math_max, Math_min. cbn [fold_left].
  destruct scaled as [s| | |]; try discriminate Hlt;
    destruct pan as [p| | |]; try congruence;
    simpl in Hlt; try (destruct (Qltb_spec available s); [|discriminate Hlt]);
    split; num_goal.
Qed.

Lemma clamp_pan_skip (available scaled pan : num) :
  ~ (available < scaled)%num -> clamp_pan scaled available pan = pan.
Proof.
  intros H. unfold clamp_pan, num_gtb. unfold num_lt in H.
  destruct (available <? scaled)%num; [exfalso; apply H; reflexivity|reflexivity].
Qed.

Lemma num_eq_not_lt (a b : num) : (a == b)%num -> ~ (b < a)%num.
Proof.
  unfold num_eq, num_lt. destruct a, b; simpl; intros H; try contradiction;
    try discriminate. destruct (Qltb_spec q0 q); [lra|discriminate].
Qed.

(** C7 (amended).  [applyPanBounds] restricts the pan offset of an axis to
    [[-(scaledSize - availableSize), 0]] when the scaled diagram strictly
    exceeds the available size on that axis (and the computed offset is a
    number); on any other axis, the boundary case of equal sizes included, the
    offset is left as computed.  The scaled sizes are not affected. *)
Theorem applyPanBounds_clamps (r : Renderer) :
  let r' := applyPanBounds r in
  ((availableWidth < scaledCanvasWidth r)%num -> panX r <> NaN ->
     (- (scaledCanvasWidth r - availableWidth) <= panX r')%num /\
     (panX r' <= Fin 0)%num) /\
  ((availableHeight < scaledCanvasHeight r)%num -> panY r <> NaN ->
     (- (scaledCanvasHeight r - availableHeight) <= panY r')%num /\
     (panY r' <= Fin 0)%num) /\
  (~ (availableWidth < scaledCanvasWidth r)%num -> panX r' = panX r) /\
  (~ (availableHeight < scaledCanvasHeight r)%num -> panY r' = panY r) /\
  ((scaledCanvasWidth r == availableWidth)%num -> panX r' = panX r) /\
  ((scaledCanvasHeight r == availableHeight)%num -> panY r' = panY r) /\
  scaledCanvasWidth r' = scaledCanvasWidth r /\
  scaledCanvasHeight r' = scaledCanvasHeight r.
Proof.
  intros r'. subst r'. rewrite applyPanBounds_eq.
  destruct r as [cd cp svg cs b bs z px py]. fields.
  unfold availableWidth, availableHeight.
  repeat split.
  - apply clamp_pan_range; assumption.
  - apply clamp_pan_range; assumption.
  - apply clamp_pan_range; assumption.
  - apply clamp_pan_range; assumption.
  - apply clamp_pan_skip.
  - apply clamp_pan_skip.
  - intros H. apply clamp_pan_skip, num_eq_not_lt, H.
  - intros H. apply clamp_pan_skip, num_eq_not_lt, H.
Qed.

(** C7 as first stated does not hold at the boundary: framing the only group
    of a document as wide as the padded viewport, the scaled width equals the
    available width and the pan offset is 20. *)
Lemma boundary_pan_not_zero :
  let r := run [ OpLoadCanvas "hall.canvas" (Some one_wide_room);
                 OpSetCurrentStation 7 ] new_renderer in
  (scaledCanvasWidth r == availableWidth)%num /\
  (panX r == Fin 20)%num /\
  ~ (panX r == Fin 0)%num.
Proof.
  intros r. split; [|split].
  - vm_compute. reflexivity.
  - vm_compute. reflexivity.
  - intros H. vm_compute in H. discriminate H.
Qed.

Lemma clamp_pan_NaN (scaled available : num) :
  clamp_pan scaled available NaN = NaN.
Proof.
  unfold clamp_pan. destruct (_ >? _)%num; [|reflexivity].
  unfold Math_max, Math_min. cbn [fold_left].
  destruct scaled, available; repeat (simpl; qcase); reflexivity.
Qed.

(** Both framing operations end with [applyPanBounds]: in the state they
    leave, the offset of an axis whose scaled size strictly exceeds the
    available size lies in the clamp interval, and the offset of any other
    axis is the centring value. *)
Lemma framing_pan_clamped (target : CanvasNode.t) (r r' : Renderer) :
  r' = panToGroup target r \/ r' = panToNode target r ->
  ((availableWidth < scaledCanvasWidth r')%num -> panX r' <> NaN ->
     (- (scaledCanvasWidth r' - availableWidth) <= panX r')%num /\
     (panX r' <= Fin 0)%num) /\
  ((availableHeight < scaledCanvasHeight r')%num -> panY r' <> NaN ->
     (- (scaledCanvasHeight r' - availableHeight) <= panY r')%num /\
     (panY r' <= Fin 0)%num) /\
  (~ (availableWidth < scaledCanvasWidth r')%num ->
     panX r' = (Fin (OVERVIEW_WIDTH / 2)
                - (Fin (center_x target) - minX (bounds r')) * getEffectiveScale r')%num) /\
  (~ (availableHeight < scaledCanvasHeight r')%num ->
     panY r' = (Fin (OVERVIEW_HEIGHT / 2)
                - (Fin (center_y target) - minY (bounds r')) * getEffectiveScale r')%num).
Proof.
  intros H.
  assert (E : exists zoom, r' = frame_on (center_x target) (center_y target) zoom r).
  { destruct H as [->| ->]; eexists; [apply panToGroup_eq|apply panToNode_eq]. }
  destruct E as (zoom & ->). clear H.
  destruct r as [cd cp svg cs b bs z px py].
  unfold scaledCanvasWidth, scaledCanvasHeight, availableWidth, availableHeight,
    getEffectiveScale, frame_on.
  fields. repeat split.
  - apply clamp_pan_range; [assumption|].
    intros E. rewrite E, clamp_pan_NaN in *. congruence.
  - apply clamp_pan_range; [assumption|].
    intros E. rewrite E, clamp_pan_NaN in *. congruence.
  - apply clamp_pan_range; [assumption|].
    intros E. rewrite E, clamp_pan_NaN in *. congruence.
  - apply clamp_pan_range; [assumption|].
    intros E. rewrite E, clamp_pan_NaN in *. congruence.
  - apply clamp_pan_skip.
  - apply clamp_pan_skip.
Qed.

(** A group of size zero at the corner of the bounds makes the zoom
    multiplier infinite and the pan offsets [NaN]: the clamp interval is
    meaningful only when the computed offset is a number. *)
Lemma zero_sized_group_pan_not_a_number :
  let r := run [ OpLoadCanvas "point.canvas" (Some point_in_point_group);
                 OpSetCurrentStation 1 ] new_renderer in
  currentZoomScale r = PosInf /\ panX r = NaN /\ panY r = NaN.
Proof. vm_compute. auto. Qed.

(* ================================================================= *)
(** ** Node framing *)

Lemma node_zoom_clamp (base : num) :
  base <> NaN ->
  (node_zoom base == clamp (Fin 1 / base) (Fin 1.5) (Fin 3))%num /\
  (Fin 1.5 <= node_zoom base)%num /\ (node_zoom base <= Fin 3)%num.
Proof.
  intros Hb. unfold node_zoom, clamp, Math_min, Math_max. cbn [fold_left].
  destruct base as [q| | |]; try congruence; repeat split; num_goal.
Qed.

Lemma renderGroups_eq (r : Renderer) :
  renderGroups r =
  match canvasData r with
  | None => Normal []
  | Some data =>
      match find (is_anchor_of (option_map toString (currentStationId r))) (nodes data) with
      | Some node =>
          match findContainingGroup node r with
          | Throw msg => Throw msg
          | Normal currentGroup =>
              Normal (flat_map (group_shapes (bounds r) currentGroup)
                               (filter is_group (nodes data)))
          end
      | None =>
          Normal (flat_map (group_shapes (bounds r) None) (filter is_group (nodes data)))
      end
  end.
Proof.
  unfold renderGroups. destruct (canvasData r) as [data|]; [|reflexivity].
  destruct (find _ _); reflexivity.
Qed.

Lemma findContainingGroup_none (r : Renderer) (data : CanvasData) (node : CanvasNode.t) :
  canvasData r = Some data ->
  (forall g, In g (nodes data) -> ~ offending node g) ->
  findContainingGroup node r = Normal None.
Proof.
  intros Hd Hnone. rewrite findContainingGroup_eq, Hd. cbv zeta.
  rewrite (containing_groups_none _ _ Hnone). reflexivity.
Qed.

(** C8.  When the anchor of the highlight target exists and no group contains
    it, the highlight change completes and sets the zoom multiplier to
    [clamp(1 / baseScale, 1.5, 3)], a value of the interval [[1.5, 3]]. *)
Theorem node_framing_zoom
    (r : Renderer) (stationId : Z) (data : CanvasData) (node : CanvasNode.t) :
  canvasData r = Some data ->
  find (is_anchor_of (Some (toString stationId))) (nodes data) = Some node ->
  (forall g, In g (nodes data) -> ~ offending node g) ->
  baseScale r <> NaN ->
  exists r',
    setCurrentStation stationId r = (Normal tt, r') /\
    (currentZoomScale r' == clamp (Fin 1 / baseScale r) (Fin 1.5) (Fin 3))%num /\
    (Fin 1.5 <= currentZoomScale r')%num /\
    (currentZoomScale r' <= Fin 3)%num.
Proof.
  intros Hd Hfind Hnone Hbs.
  rewrite setCurrentStation_eq, panToStation_eq.
  set (r0 := set_currentStationId (Some stationId) r).
  assert (Hd0 : canvasData r0 = Some data) by exact Hd.
  rewrite Hd0, Hfind, (findContainingGroup_none r0 data node Hd0 Hnone).
  rewrite panToNode_eq, render_eq.
  set (r1 := frame_on _ _ _ r0).
  assert (Hd1 : canvasData r1 = Some data) by exact Hd.
  assert (Hz : currentZoomScale r1 = node_zoom (baseScale r)) by reflexivity.
  destruct (node_zoom_clamp _ Hbs) as (Hc & Hlo & Hhi).
  rewrite Hd1. destruct (svgElement r1) as [children|].
  - rewrite renderGroups_eq, Hd1.
    change (currentStationId r1) with (Some stationId). cbn [option_map].
    rewrite Hfind, (findContainingGroup_none r1 data node Hd1 Hnone).
    eexists. split; [reflexivity|]. fields. rewrite Hz. auto.
  - eexists. split; [reflexivity|]. rewrite Hz. auto.
Qed.

(* ================================================================= *)
(** ** Highlight changes are idempotent *)

Lemma set_currentStationId_same (stationId : Z) (r : Renderer) :
  currentStationId r = Some stationId ->
  set_currentStationId (Some stationId) r = r.
Proof. destruct r; simpl; intros ->; reflexivity. Qed.

Lemma renderGroups_surface (s : option (list SvgChild)) (r : Renderer) :
  renderGroups (set_svgElement s r) = renderGroups r.
Proof. destruct r; reflexivity. Qed.

Lemma render_snd_cases (r : Renderer) :
  snd (render r) = r \/
  exists s, (svgElement r <> None /\ canvasData r <> None) /\
            snd (render r) = set_svgElement (Some s) r.
Proof.
  rewrite render_eq. destruct (svgElement r) eqn:E; [|left; reflexivity].
  destruct (canvasData r); [|left; reflexivity].
  destruct (renderGroups r); right; eexists;
    (split; [split; discriminate|reflexivity]).
Qed.

Lemma render_surface (s : list SvgChild) (r : Renderer) :
  svgElement r <> None /\ canvasData r <> None ->
  render (set_svgElement (Some s) r) = render r.
Proof.
  intros [Hs Hd]. rewrite !render_eq, renderGroups_surface.
  destruct r as [cd cp svg cs b bs z px py]. fields.
  destruct svg; [|congruence]. destruct cd; [|congruence].
  destruct (renderGroups _); reflexivity.
Qed.

Lemma render_idempotent (r : Renderer) : render (snd (render r)) = render r.
Proof.
  destruct (render_snd_cases r) as [->|(s & Hs & ->)]; [reflexivity|].
  apply render_surface, Hs.
Qed.

Lemma panToStation_cases (stationId : Z) (r : Renderer) :
  (forall r', canvasData r' = canvasData r -> panToStation stationId r' = (Normal tt, r')) \/
  (exists msg, forall r', canvasData r' = canvasData r ->
                 panToStation stationId r' = (Throw msg, r')) \/
  (exists cx cy zoom_of,
     (zoom_of = node_zoom \/ exists group, zoom_of = group_zoom group) /\
     forall r', canvasData r' = canvasData r ->
       panToStation stationId r' = (Normal tt, frame_on cx cy (zoom_of (baseScale r')) r')).
Proof.
  destruct (canvasData r) as [data|] eqn:Hd.
  2:{ left. intros r' E. rewrite panToStation_eq, E. reflexivity. }
  destruct (find (is_anchor_of (Some (toString stationId))) (nodes data)) as [n|] eqn:Hf.
  2:{ left. intros r' E. rewrite panToStation_eq, E, Hf. reflexivity. }
  destruct (findContainingGroup n r) as [[g|]|msg] eqn:Hg.
  - right; right. exists (center_x g), (center_y g), (group_zoom g).
    split; [right; exists g; reflexivity|]. intros r' E. rewrite panToStation_eq, E, Hf.
    rewrite findContainingGroup_eq, E. rewrite findContainingGroup_eq, Hd in Hg.
    rewrite Hg. apply f_equal, panToGroup_eq.
  - right; right. exists (center_x n), (center_y n), node_zoom.
    split; [left; reflexivity|]. intros r' E. rewrite panToStation_eq, E, Hf.
    rewrite findContainingGroup_eq, E. rewrite findContainingGroup_eq, Hd in Hg.
    rewrite Hg. apply f_equal, panToNode_eq.
  - right; left. exists msg.
    intros r' E. rewrite panToStation_eq, E, Hf.
    rewrite findContainingGroup_eq, E. rewrite findContainingGroup_eq, Hd in Hg.
    rewrite Hg. reflexivity.
Qed.

Lemma frame_on_fixed (cx cy : Q) (zoom_of : num -> num) (r : Renderer) :
  let f := frame_on cx cy (zoom_of (baseScale r)) r in
  frame_on cx cy (zoom_of (baseScale f)) f = f /\
  forall s, frame_on cx cy (zoom_of (baseScale (set_svgElement s f))) (set_svgElement s f)
            = set_svgElement s f.
Proof. destruct r; split; reflexivity. Qed.

(** C9.  Calling [setCurrentStation] a second time with the same id, from
    any state and with any document, completes the same way and leaves the
    same state: the same transform state and in fact the same renderer. *)
Theorem setCurrentStation_idempotent (r : Renderer) (stationId : Z) :
  let first := setCurrentStation stationId r in
  let second := setCurrentStation stationId (snd first) in
  fst second = fst first /\
  transform_state (snd second) = transform_state (snd first) /\
  snd second = snd first.
Proof.
  intros first second.
  assert (H : second = first); [|rewrite H; auto].
  subst second first. rewrite !setCurrentStation_eq.
  set (r0 := set_currentStationId (Some stationId) r).
  assert (Hid : currentStationId r0 = Some stationId) by reflexivity.
  destruct (panToStation_cases stationId r0) as [Hn|[(msg & Ht)|(cx & cy & zf & _ & Hf)]].
  - rewrite (Hn r0 eq_refl).
    assert (E : set_currentStationId (Some stationId) (snd (render r0)) = snd (render r0)).
    { apply set_currentStationId_same.
      destruct (render_snd_cases r0) as [->|(s & _ & ->)]; exact Hid. }
    rewrite E, Hn.
    + apply render_idempotent.
    + destruct (render_snd_cases r0) as [->|(s & _ & ->)]; reflexivity.
  - rewrite (Ht r0 eq_refl). cbn [snd].
    rewrite (set_currentStationId_same _ _ Hid), (Ht r0 eq_refl). reflexivity.
  - rewrite (Hf r0 eq_refl).
    set (f := frame_on cx cy (zf (baseScale r0)) r0).
    assert (Hidf : currentStationId f = Some stationId) by reflexivity.
    assert (E : set_currentStationId (Some stationId) (snd (render f)) = snd (render f)).
    { apply set_currentStationId_same.
      destruct (render_snd_cases f) as [->|(s & _ & ->)]; exact Hidf. }
    rewrite E, Hf.
    + destruct (frame_on_fixed cx cy zf r0) as [F1 F2]. fold f in F1, F2.
      destruct (render_snd_cases f) as [->|(s & Hs & ->)].
      * rewrite F1. reflexivity.
      * rewrite F2. apply render_surface, Hs.
    + destruct (render_snd_cases f) as [->|(s & _ & ->)]; reflexivity.
Qed.

(* ================================================================= *)
(** ** The zoom multiplier never drops below 1 *)

Lemma calculateBounds_finite (r : Renderer) :
  exists x0 x1 y0 y1,
    bounds (calculateBounds r) = finite_bounds x0 x1 y0 y1 /\
    ((forall data, canvasData r = Some data -> wf_data data) ->
     (x0 <= x1)%Q /\ (y0 <= y1)%Q).
Proof.
  unfold calculateBounds.
  destruct (canvasData r) as [data|].
  2:{ exists 0, 100, 0, 100. split; [reflexivity|]. intros _; split; discriminate. }
  destruct (nodes data) as [|n ns] eqn:Hn.
  { exists 0, 100, 0, 100. split; [reflexivity|]. intros _; split; discriminate. }
  destruct (Math_min_is_min CanvasNode.x n ns) as (x0 & Ex0 & _ & Hx0).
  destruct (Math_max_is_max (fun n => CanvasNode.x n + CanvasNode.width n)%Q n ns)
    as (x1 & Ex1 & _ & Hx1).
  destruct (Math_min_is_min CanvasNode.y n ns) as (y0 & Ey0 & _ & Hy0).
  destruct (Math_max_is_max (fun n => CanvasNode.y n + CanvasNode.height n)%Q n ns)
    as (y1 & Ey1 & _ & Hy1).
  exists x0, x1, y0, y1. split.
  - cbn [bounds set_bounds]. unfold finite_bounds. rewrite Ex0, Ex1, Ey0, Ey1. reflexivity.
  - intros Hwf. specialize (Hwf data eq_refl). unfold wf_data in Hwf. rewrite Hn in Hwf.
    apply Forall_inv in Hwf. destruct Hwf as [Hw Hh].
    specialize (Hx0 (CanvasNode.x n) (or_introl eq_refl)).
    specialize (Hx1 (CanvasNode.x n + CanvasNode.width n)%Q (or_introl eq_refl)).
    specialize (Hy0 (CanvasNode.y n) (or_introl eq_refl)).
    specialize (Hy1 (CanvasNode.y n + CanvasNode.height n)%Q (or_introl eq_refl)).
    split; lra.
Qed.

Lemma Math_max_with_one (v : num) : v <> NaN -> (Fin 1 <= Math_max [v; Fin 1])%num.
Proof.
  intros Hv. unfold Math_max. cbn [fold_left].
  destruct v; try congruence; num_goal.
Qed.

Lemma group_zoom_ge_1 (group : CanvasNode.t) (q : Q) :
  ~ (q == 0)%Q -> (Fin 1 <= group_zoom group (Fin q))%num.
Proof.
  intros Hq. unfold group_zoom. apply Math_max_with_one.
  cbn [num_mul].
  rewrite !avail_div by reflexivity.
  unfold Math_min. cbn [fold_left].
  destruct (Qzerob_spec (CanvasNode.width group * 1.2));
    destruct (Qzerob_spec (CanvasNode.height group * 1.2));
    repeat (simpl; qcase); try discriminate; try contradiction;
    destruct (Qle_bool 0 q); discriminate.
Qed.

Lemma node_zoom_ge_1 (base : num) : base <> NaN -> (Fin 1 <= node_zoom base)%num.
Proof.
  intros Hb. unfold node_zoom, Math_min, Math_max. cbn [fold_left].
  destruct base as [q| | |]; try congruence; num_goal.
Qed.

Lemma effective_ge_base (q : Q) (zoom : num) :
  (0 < q)%Q -> (Fin 1 <= zoom)%num -> (Fin q <= Fin q * zoom)%num.
Proof.
  intros Hq Hz. destruct zoom as [z| | |]; try discriminate Hz.
  - apply num_le_Fin in Hz. apply num_le_Fin. nra.
  - unfold num_le. simpl. destruct (Qzerob_spec q); [lra|].
    destruct (Qposb_spec q); [reflexivity|lra].
Qed.

Lemma render_transform (r : Renderer) :
  let r' := snd (render r) in
  baseScale r' = baseScale r /\ currentZoomScale r' = currentZoomScale r /\
  panX r' = panX r /\ panY r' = panY r.
Proof.
  destruct (render_snd_cases r) as [->|(s & _ & ->)]; destruct r; simpl; auto.
Qed.

Lemma setCurrentStation_transform (stationId : Z) (r : Renderer) :
  let r' := snd (setCurrentStation stationId r) in
  baseScale r' = baseScale r /\
  (currentZoomScale r' = currentZoomScale r \/
   currentZoomScale r' = node_zoom (baseScale r) \/
   exists group, currentZoomScale r' = group_zoom group (baseScale r)).
Proof.
  rewrite setCurrentStation_eq.
  set (r0 := set_currentStationId (Some stationId) r).
  destruct (panToStation_cases stationId r0)
    as [Hn|[(msg & Ht)|(cx & cy & zf & Hzf & Hf)]].
  - rewrite (Hn r0 eq_refl).
    destruct (render_transform r0) as (Hb & Hz & _). cbv zeta in *.
    rewrite Hb, Hz. split; [reflexivity|left; reflexivity].
  - rewrite (Ht r0 eq_refl). cbn [snd]. split; [reflexivity|left; reflexivity].
  - rewrite (Hf r0 eq_refl).
    set (f := frame_on cx cy (zf (baseScale r0)) r0).
    destruct (render_transform f) as (Hb & Hz & _). cbv zeta in *.
    rewrite Hb, Hz. split; [reflexivity|]. right.
    destruct Hzf as [->|(g & ->)]; [left|right; exists g]; reflexivity.
Qed.

Lemma resetZoom_transform (r : Renderer) :
  let r' := snd (resetZoom r) in
  baseScale r' = baseScale r /\ currentZoomScale r' = Fin 1 /\
  panX r' = Fin 0 /\ panY r' = Fin 0.
Proof.
  unfold resetZoom, bind, modify.
  set (r1 := set_panY _ _).
  destruct (render_transform r1) as (Hb & Hz & Hx & Hy). cbv zeta in *.
  destruct (render r1) as [[u|msg] r']; cbn [snd] in *; rewrite Hb, Hz, Hx, Hy;
    destruct r; auto.
Qed.

Lemma run_snoc (ops : list Op) (op : Op) (r : Renderer) :
  run (ops ++ [op]) r = step (run ops r) op.
Proof. unfold run. rewrite fold_left_app. reflexivity. Qed.

Lemma run_invariant (ops : list Op) :
  exists q, baseScale (run ops new_renderer) = Fin q /\
            ~ (q == 0)%Q /\
            (Forall wf_op ops -> (0 < q)%Q) /\
            (Fin 1 <= currentZoomScale (run ops new_renderer))%num.
Proof.
  induction ops as [|op ops IH] using rev_ind.
  - exists 1. repeat split; try reflexivity; try discriminate.
  - destruct IH as (q & Hq & Hnz & Hpos & Hzoom).
    rewrite run_snoc. set (r := run ops new_renderer) in *.
    destruct op as [path [data|]|stationId| |].
    + unfold step. cbn [call].
      destruct (loadCanvas_fields path (Some data) r) as (Hz & _ & _ & r2 & Hd & Hb).
      cbv zeta in *.
      destruct (calculateBounds_finite r2) as (x0 & x1 & y0 & y1 & Eb & Hwf).
      destruct (scale_of_finite_bounds_nonzero x0 x1 y0 y1) as (q' & Eq' & Hnz' & Hpos').
      exists q'. rewrite Hb, Eb, Hz. repeat split; auto.
      intros Hall. apply Forall_app in Hall. destruct Hall as [_ Hop].
      apply Forall_inv in Hop. cbn [wf_op] in Hop.
      apply Hpos'; apply Hwf; intros d Ed; rewrite Hd in Ed; injection Ed as <-; exact Hop.
    + unfold step. cbn [call].
      destruct (loadCanvas_fields path None r) as (Hz & _ & _ & Hb). cbv zeta in *.
      exists q. rewrite Hb, Hz. repeat split; auto.
      intros Hall. apply Forall_app in Hall. apply Hpos, Hall.
    + unfold step. cbn [call].
      destruct (setCurrentStation_transform stationId r) as (Hb & Hz). cbv zeta in *.
      exists q. rewrite Hb. repeat split; auto.
      * intros Hall. apply Forall_app in Hall. apply Hpos, Hall.
      * destruct Hz as [->|[->|(g & ->)]]; [exact Hzoom| |]; rewrite Hq.
        -- apply node_zoom_ge_1. discriminate.
        -- apply group_zoom_ge_1, Hnz.
    + unfold step. cbn [call].
      destruct (resetZoom_transform r) as (Hb & Hz & _). cbv zeta in *.
      exists q. rewrite Hb, Hz. repeat split; auto.
      intros Hall. apply Forall_app in Hall. apply Hpos, Hall.
    + unfold step. cbn [call]. unfold destroy, modify. cbn [snd].
      exists q. destruct r; fields. repeat split; auto.
      intros Hall. apply Forall_app in Hall. apply Hpos, Hall.
Qed.

(** C10.  In every state reachable from a fresh renderer the zoom multiplier
    is at least 1, and for documents whose rectangles have non-negative sizes
    the effective scale is never below the base scale, whatever the sequence
    of calls.  The multiplier is 1 initially and after a reset, group framing
    sets it to [max(targetZoom / baseScale, 1)] and node framing to at least
    1.5. *)
Theorem zoom_never_below_one :
  (forall r, reachable r -> (Fin 1 <= currentZoomScale r)%num) /\
  (forall ops, Forall wf_op ops ->
     let r := run ops new_renderer in
     (baseScale r <= getEffectiveScale r)%num) /\
  currentZoomScale new_renderer = Fin 1 /\
  (forall r, currentZoomScale (snd (resetZoom r)) = Fin 1) /\
  (forall group r,
     currentZoomScale (panToGroup group r) =
     Math_max
       [ (Math_min
            [ (availableWidth / (Fin (CanvasNode.width group) * Fin 1.2))%num;
              (availableHeight / (Fin (CanvasNode.height group) * Fin 1.2))%num ]
          / baseScale r)%num;
         Fin 1 ]) /\
  (forall node r, reachable r ->
     (Fin 1.5 <= currentZoomScale (panToNode node r))%num).
Proof.
  split; [|split; [|split; [reflexivity|split; [|split]]]].
  - intros r [ops ->].
    destruct (run_invariant ops) as (q & _ & _ & _ & Hzoom). exact Hzoom.
  - intros ops Hall r. subst r.
    destruct (run_invariant ops) as (q & Hq & _ & Hpos & Hzoom).
    unfold getEffectiveScale. rewrite Hq.
    apply effective_ge_base; [apply Hpos, Hall|exact Hzoom].
  - intros r. apply resetZoom_transform.
  - intros g r. rewrite panToGroup_eq. reflexivity.
  - intros n r [ops ->]. rewrite panToNode_eq. cbn [frame_on currentZoomScale].
    destruct (run_invariant ops) as (q & Hq & _).
    apply node_zoom_clamp. rewrite Hq. discriminate.
Qed.

(* ================================================================= *)
(** ** An anchor in several groups *)

(** C1 (amended).  When the anchor of the highlighted station lies in two or
    more groups, [setCurrentStation] records the station id and throws the
    multiplicity error to its caller before any re-render: the drawing surface
    and the transform state are left as they were.  A render attempted in that
    state throws the same error and leaves only the cleared surface. *)
Theorem several_groups_error_propagates
    (r : Renderer) (stationId : Z) (data : CanvasData) (node : CanvasNode.t) :
  canvasData r = Some data ->
  find (is_anchor_of (Some (toString stationId))) (nodes data) = Some node ->
  (1 < List.length (containing_groups node (nodes data)))%nat ->
  let msg := multiple_groups_message node (containing_groups node (nodes data)) in
  let r' := set_currentStationId (Some stationId) r in
  setCurrentStation stationId r = (Throw msg, r') /\
  svgElement r' = svgElement r /\
  transform_state r' = transform_state r /\
  render r' = match svgElement r with
              | Some _ => (Throw msg, set_svgElement (Some [Defs]) r')
              | None => (Normal tt, r')
              end.
Proof.
  intros Hd Hfind Hlen msg r'.
  assert (Hd' : canvasData r' = Some data) by exact Hd.
  assert (Hg : findContainingGroup node r' = Throw msg).
  { rewrite findContainingGroup_eq, Hd'. cbv zeta.
    apply Nat.ltb_lt in Hlen. rewrite Hlen. reflexivity. }
  split; [|split; [reflexivity|split; [reflexivity|]]].
  - rewrite setCurrentStation_eq. fold r'.
    rewrite panToStation_eq, Hd', Hfind, Hg. reflexivity.
  - rewrite render_eq, renderGroups_eq, Hd'.
    change (svgElement r') with (svgElement r).
    change (currentStationId r') with (Some stationId). cbn [option_map].
    rewrite Hfind, Hg. destruct (svgElement r); reflexivity.
Qed.

(** C1 as first stated does not hold: after station 9 was highlighted,
    highlighting station 7, whose anchor lies in two groups, throws and leaves
    the scene of station 9 on the surface, "Room C" still drawn in the
    highlighted style. *)
Lemma several_groups_no_degraded_render :
  let r := run [ OpLoadCanvas "palace.canvas" (Some overlapping_rooms);
                 OpSetCurrentStation 9 ] new_renderer in
  anchor_in_several_groups r 7 /\
  (exists msg, fst (setCurrentStation 7 r) = Throw msg) /\
  ~ drawn_with_default_groups (snd (setCurrentStation 7 r)).
Proof.
  intros r. split; [|split].
  - exists overlapping_rooms, anchor_7. repeat split. vm_compute. lia.
  - eexists. vm_compute. reflexivity.
  - intros (data & tx & ty & sc & shapes & _ & Hsvg & _ & Hnone).
    vm_compute in Hsvg. injection Hsvg as _ _ _ Hshapes.
    eapply Hnone. rewrite <- Hshapes. right. right. right. left. reflexivity.
Qed.

(* ================================================================= *)
(** ** The properties on the example documents *)

Lemma calculateBounds_correct_witness :
  (let b := bounds (calculateBounds (set_canvasData (Some one_room) new_renderer)) in
   is_min_of (minX b) (map CanvasNode.x (nodes one_room)) /\
   is_max_of (maxX b)
     (map (fun n => CanvasNode.x n + CanvasNode.width n)%Q (nodes one_room)) /\
   is_min_of (minY b) (map CanvasNode.y (nodes one_room)) /\
   is_max_of (maxY b)
     (map (fun n => CanvasNode.y n + CanvasNode.height n)%Q (nodes one_room))) /\
  bounds (calculateBounds (set_canvasData (Some (mkCanvasData [])) new_renderer)) =
  {| minX := Fin 0; maxX := Fin 100; minY := Fin 0; maxY := Fin 100 |}.
Proof.
  split.
  - apply (calculateBounds_correct
             (set_canvasData (Some one_room) new_renderer) one_room eq_refl).
    discriminate.
  - apply (calculateBounds_correct
             (set_canvasData (Some (mkCanvasData [])) new_renderer)
             (mkCanvasData []) eq_refl).
    reflexivity.
Defined.

Lemma calculateScale_never_upscales_witness :
  (baseScale (calculateScale (set_bounds (finite_bounds 0 540 0 440) new_renderer))
   < Fin 1)%num /\
  (baseScale (calculateScale (set_bounds (finite_bounds 0 100 0 100) new_renderer))
   == Fin 1)%num.
Proof.
  split.
  - apply (calculateScale_never_upscales
             (set_bounds (finite_bounds 0 540 0 440) new_renderer) 0 540 0 440 eq_refl).
    left. reflexivity.
  - apply (calculateScale_never_upscales
             (set_bounds (finite_bounds 0 100 0 100) new_renderer) 0 100 0 100 eq_refl).
    repeat split; discriminate.
Defined.

Lemma calculateScale_zero_span_guarded_witness :
  let r := calculateBounds (set_canvasData (Some one_point) new_renderer) in
  bounds r = finite_bounds 10 10 10 10 /\
  baseScale (calculateScale r) = scale_of_bounds_guarded 10 10 10 10 /\
  is_finite (baseScale (calculateScale r)).
Proof.
  split; [reflexivity|].
  apply (calculateScale_zero_span_guarded
           (calculateBounds (set_canvasData (Some one_point) new_renderer))
           10 10 10 10 eq_refl).
Defined.

Lemma applyPanBounds_clamps_witness :
  let r := set_panX (Fin 30)
             (set_currentZoomScale (Fin 2)
                (snd (loadCanvas "palace.canvas" (Some one_room) new_renderer))) in
  (- (scaledCanvasWidth r - availableWidth) <= panX (applyPanBounds r))%num /\
  (panX (applyPanBounds r) <= Fin 0)%num.
Proof.
  intros r. apply (applyPanBounds_clamps r).
  - reflexivity.
  - discriminate.
Defined.

Lemma zoom_never_below_one_witness :
  let ops := [ OpLoadCanvas "palace.canvas" (Some one_room);
               OpSetCurrentStation 7; OpSetCurrentStation 9 ] in
  (Fin 1 <= currentZoomScale (run ops new_renderer))%num /\
  (baseScale (run ops new_renderer) <= getEffectiveScale (run ops new_renderer))%num /\
  (Fin 1.5 <= currentZoomScale (panToNode anchor_9 (run ops new_renderer)))%num.
Proof.
  intros ops.
  destruct zoom_never_below_one as (Hzoom & Heff & _ & _ & _ & Hnode).
  assert (Hreach : reachable (run ops new_renderer)) by (exists ops; reflexivity).
  split; [|split].
  - apply Hzoom, Hreach.
  - apply (Heff ops). repeat constructor; discriminate.
  - apply Hnode, Hreach.
Defined.

Lemma no_group_around_anchor_9 (g : CanvasNode.t) :
  In g (nodes one_room) -> ~ offending anchor_9 g.
Proof.
  intros Hin [Hty Hc]. apply isNodeInGroup_contained in Hc.
  destruct Hin as [<-|[<-|[<-|[]]]];
    first [discriminate Hty | discriminate Hc].
Qed.

Lemma room_a_only_group_around_anchor_7 (g : CanvasNode.t) :
  In g ([] ++ [anchor_7; anchor_9]) -> ~ offending anchor_7 g.
Proof.
  intros Hin [Hty Hc].
  destruct Hin as [<-|[<-|[]]]; discriminate Hty.
Qed.

Lemma room_a_around_anchor_7 : offending anchor_7 room_a.
Proof. split; [reflexivity|]. apply isNodeInGroup_contained. reflexivity. Qed.

Lemma room_b_around_anchor_7 : offending anchor_7 room_b.
Proof. split; [reflexivity|]. apply isNodeInGroup_contained. reflexivity. Qed.

Lemma findContainingGroup_resolution_witness :
  let r := set_canvasData (Some one_room) new_renderer in
  let r2 := set_canvasData (Some overlapping_rooms) new_renderer in
  findContainingGroup anchor_9 r = Normal None /\
  findContainingGroup anchor_7 r = Normal (Some room_a) /\
  exists msg,
    findContainingGroup anchor_7 r2 = Throw msg /\
    occurs_in "7" msg /\ occurs_in "Room A" msg /\ occurs_in "g2" msg.
Proof.
  intros r r2. split; [|split].
  - apply (findContainingGroup_resolution r one_room anchor_9 eq_refl).
    exact no_group_around_anchor_9.
  - apply (proj1 (proj2 (findContainingGroup_resolution r one_room anchor_7 eq_refl))
             [] room_a [anchor_7; anchor_9] eq_refl room_a_around_anchor_7).
    exact room_a_only_group_around_anchor_7.
  - destruct (proj2 (proj2 (findContainingGroup_resolution r2 overlapping_rooms anchor_7
                               eq_refl))
                [] room_a [] room_b [room_c; anchor_7; anchor_9] eq_refl
                room_a_around_anchor_7 room_b_around_anchor_7)
      as (msg & Hthrow & Htext & _ & Hgroups).
    exists msg. split; [exact Hthrow|]. split; [|split].
    + apply Htext. reflexivity.
    + apply (proj1 (Hgroups room_a (or_introl eq_refl) room_a_around_anchor_7)
               "R"%char "oom A"%string).
      reflexivity.
    + apply (proj2 (Hgroups room_b (or_intror (or_introl eq_refl))
                      room_b_around_anchor_7)).
      left. reflexivity.
Defined.

Lemma node_framing_zoom_witness :
  let r := snd (loadCanvas "palace.canvas" (Some one_room) new_renderer) in
  exists r',
    setCurrentStation 9 r = (Normal tt, r') /\
    (currentZoomScale r' == clamp (Fin 1 / baseScale r) (Fin 1.5) (Fin 3))%num /\
    (Fin 1.5 <= currentZoomScale r')%num /\
    (currentZoomScale r' <= Fin 3)%num.
Proof.
  intros r.
  apply (node_framing_zoom r 9 one_room anchor_9 eq_refl eq_refl
           no_group_around_anchor_9).
  discriminate.
Defined.

Lemma several_groups_error_propagates_witness :
  let r := snd (loadCanvas "palace.canvas" (Some overlapping_rooms) new_renderer) in
  let msg := multiple_groups_message anchor_7 [room_a; room_b] in
  setCurrentStation 7 r = (Throw msg, set_currentStationId (Some 7%Z) r) /\
  render (set_currentStationId (Some 7%Z) r) =
    (Throw msg, set_svgElement (Some [Defs]) (set_currentStationId (Some 7%Z) r)).
Proof.
  intros r msg.
  assert (Hlen : (1 < List.length (containing_groups anchor_7 (nodes overlapping_rooms)))%nat)
    by (vm_compute; lia).
  destruct (several_groups_error_propagates r 7 overlapping_rooms anchor_7
              eq_refl eq_refl Hlen) as (Hthrow & _ & _ & Hrender).
  split; [exact Hthrow|exact Hrender].
Defined.
